(** * fn_keys_helper: configuration store, edit dialog and display surface

    A shallow embedding of [fn_keys_helper.py].  The program keeps a map
    from function-key names to descriptions, shows one label per key,
    lets the user edit the descriptions in a dialog and stores the map as
    JSON text in a file of the user's configuration directory.

    Layout of the development:
    - [Text]      Python strings as sequences of code points;
    - [Dict]      insertion-ordered dictionaries;
    - [Json]      [json.dump(.., indent=2)] on a map of strings and
                  [json.load], after CPython's [json] package;
    - [Store]     the file system seen by the program, exceptions, and the
                  configuration store ([get_config_path], [load_fn_keys],
                  [save_fn_keys]);
    - [Gui]       the objects of the two Qt classes ([SettingsDialog],
                  [FnKeyWindow]) over a store of dictionaries and widgets;
    - [Qt]        the text of a widget as Qt holds it, and the dialog on
                  any text;
    - the properties of the specification. *)

From Stdlib Require Import List NArith ZArith String Ascii Bool Lia.
Import ListNotations.

Set Implicit Arguments.

(* ===================================================================== *)
(** ** Python strings                                                     *)
(* ===================================================================== *)

Module Text.

(** A Python [str] is a sequence of code points.  Python admits every code
    point below [0x110000], the surrogates [0xD800..0xDFFF] included. *)
Definition pystr := list N.

Definition ch (a : ascii) : N := N_of_ascii a.

(** ASCII literals of the source, as [pystr]. *)
Definition str (s : string) : pystr := map ch (list_ascii_of_string s).

Fixpoint str_eqb (a b : pystr) : bool :=
  match a, b with
  | [], [] => true
  | x :: a', y :: b' => N.eqb x y && str_eqb a' b'
  | _, _ => false
  end.

Definition code_point (c : N) : Prop := (c < 0x110000)%N.

(** Every element is a code point Python can hold. *)
Definition str_ok (s : pystr) : Prop := Forall code_point s.

Definition is_high_surrogate (c : N) : bool := (0xD800 <=? c)%N && (c <=? 0xDBFF)%N.
Definition is_low_surrogate (c : N) : bool := (0xDC00 <=? c)%N && (c <=? 0xDFFF)%N.

(** [true] when a high surrogate is immediately followed by a low one. *)
Fixpoint has_surrogate_pair (s : pystr) : bool :=
  match s with
  | c :: ((c' :: _) as s') =>
      (is_high_surrogate c && is_low_surrogate c') || has_surrogate_pair s'
  | _ => false
  end.

End Text.
Export Text.

(* ===================================================================== *)
(** ** Insertion-ordered dictionaries                                     *)
(* ===================================================================== *)

Module Dict.

(** A Python [dict] with [str] keys: its items in insertion order.  A
    dictionary never holds a key twice ([dict_ok]). *)
Definition dict (V : Type) := list (pystr * V).

Definition keys {V} (d : dict V) : list pystr := map fst d.

Definition dict_ok {V} (d : dict V) : Prop := NoDup (keys d).

(** [d.get(k)]. *)
Fixpoint dict_get {V} (d : dict V) (k : pystr) : option V :=
  match d with
  | [] => None
  | (k', v) :: d' => if str_eqb k' k then Some v else dict_get d' k
  end.

(** [d.get(k, dflt)]. *)
Definition dict_get_default {V} (d : dict V) (k : pystr) (dflt : V) : V :=
  match dict_get d k with Some v => v | None => dflt end.

(** [d[k] = v]: a present key keeps its position, a new one goes last. *)
Fixpoint dict_set {V} (d : dict V) (k : pystr) (v : V) : dict V :=
  match d with
  | [] => [(k, v)]
  | (k', v') :: d' =>
      if str_eqb k' k then (k', v) :: d' else (k', v') :: dict_set d' k v
  end.

(** Python's [==] on dictionaries: the same keys with the same values,
    whatever the insertion orders. *)
Definition dict_eq {V} (d1 d2 : dict V) : Prop :=
  forall k, dict_get d1 k = dict_get d2 k.

End Dict.
Export Dict.

(** The map of the program: key name to description. *)
Definition KeyDescriptionMap := dict pystr.

(* ===================================================================== *)
(** ** JSON text                                                          *)
(* ===================================================================== *)

Module Json.

(** Values [json.load] can return.  A float keeps the text of its
    literal ([NaN], [Infinity] and [-Infinity] included): no property
    below computes with floats. *)
#[local] Unset Elimination Schemes.
Inductive pyvalue : Type :=
| PyNone
| PyBool (b : bool)
| PyInt (z : Z)
| PyFloat (literal : pystr)
| PyStr (s : pystr)
| PyList (items : list pyvalue)
| PyDict (items : list (pystr * pyvalue)).
#[local] Set Elimination Schemes.

Definition to_value (kv : pystr * pystr) : pystr * pyvalue := (fst kv, PyStr (snd kv)).

(** A map of strings as a Python value. *)
Definition dict_value (d : KeyDescriptionMap) : pyvalue := PyDict (map to_value d).

(** The map of strings a value is, if it is one. *)
Fixpoint strings_only (items : list (pystr * pyvalue)) : option KeyDescriptionMap :=
  match items with
  | [] => Some []
  | (k, PyStr s) :: rest =>
      match strings_only rest with
      | Some d => Some ((k, s) :: d)
      | None => None
      end
  | _ => None
  end.

Definition as_key_map (v : pyvalue) : option KeyDescriptionMap :=
  match v with
  | PyDict items => strings_only items
  | _ => None
  end.

(** *** Characters of the syntax *)

Definition QUOTE : N := 34.
Definition BACKSLASH : N := 92.
Definition NEWLINE : N := 10.
Definition SPACE : N := 32.
Definition LBRACE : N := 123.
Definition RBRACE : N := 125.
Definition LBRACKET : N := 91.
Definition RBRACKET : N := 93.
Definition COLON : N := 58.
Definition COMMA : N := 44.
Definition LETTER_u : N := 117.

(** *** Encoder: [json.dump(fn_keys, f, indent=2)]

    The defaults apply: [ensure_ascii=True], separators [(',', ': ')],
    keys in insertion order. *)

Definition hex_digit (n : N) : N := if (n <? 10)%N then (48 + n)%N else (87 + n)%N.

(** ['{0:04x}'.format(n)] for [n < 0x10000]. *)
Definition hex4 (n : N) : pystr :=
  [ hex_digit (N.land (N.shiftr n 12) 15); hex_digit (N.land (N.shiftr n 8) 15);
    hex_digit (N.land (N.shiftr n 4) 15); hex_digit (N.land n 15) ].

Definition u_escape (n : N) : pystr := BACKSLASH :: LETTER_u :: hex4 n.

(** The two [\uXXXX] values of a code point above the basic plane:
    [s1 = 0xd800 | ((n >> 10) & 0x3ff)] and [s2 = 0xdc00 | (n & 0x3ff)]
    for [n = c - 0x10000]. *)
Definition high_half (c : N) : N := N.lor 0xD800 (N.land (N.shiftr (c - 0x10000) 10) 0x3FF).
Definition low_half (c : N) : N := N.lor 0xDC00 (N.land (c - 0x10000) 0x3FF).

(** The replacement of one character by [encode_basestring_ascii]: the
    characters [' '..'~'] other than the quote and the backslash stand for
    themselves; the others go through [ESCAPE_DCT] or become [\uXXXX],
    a surrogate pair above the basic plane. *)
Definition escape_char (c : N) : pystr :=
  if (c =? BACKSLASH)%N then [BACKSLASH; BACKSLASH]
  else if (c =? QUOTE)%N then [BACKSLASH; QUOTE]
  else if (SPACE <=? c)%N && (c <=? 126)%N then [c]
  else if (c =? 8)%N then [BACKSLASH; ch "b"]
  else if (c =? 12)%N then [BACKSLASH; ch "f"]
  else if (c =? 10)%N then [BACKSLASH; ch "n"]
  else if (c =? 13)%N then [BACKSLASH; ch "r"]
  else if (c =? 9)%N then [BACKSLASH; ch "t"]
  else if (c <? 0x10000)%N then u_escape c
  else u_escape (high_half c) ++ u_escape (low_half c).

Definition escape_body (s : pystr) : pystr := flat_map escape_char s.

Definition encode_basestring_ascii (s : pystr) : pystr :=
  QUOTE :: escape_body s ++ [QUOTE].

Definition newline_indent : pystr := [NEWLINE; SPACE; SPACE].
Definition item_separator : pystr := COMMA :: newline_indent.
Definition key_separator : pystr := [COLON; SPACE].

Definition encode_item (kv : pystr * pystr) : pystr :=
  encode_basestring_ascii (fst kv) ++ key_separator ++ encode_basestring_ascii (snd kv).

(** The loop of [_iterencode_dict] over the items. *)
Fixpoint iterencode_items (first : bool) (items : KeyDescriptionMap) : pystr :=
  match items with
  | [] => []
  | kv :: rest =>
      (if first then [] else item_separator) ++ encode_item kv
      ++ iterencode_items false rest
  end.

(** The text [json.dump] writes for a map of strings. *)
Definition json_dumps (d : KeyDescriptionMap) : pystr :=
  match d with
  | [] => [LBRACE; RBRACE]
  | _ => LBRACE :: newline_indent ++ iterencode_items true d ++ [NEWLINE; RBRACE]
  end.

(** *** Decoder: [json.load], after the scanner of CPython's [_json] *)

Definition is_whitespace (c : N) : bool :=
  (c =? SPACE)%N || (c =? 9)%N || (c =? 10)%N || (c =? 13)%N.

Fixpoint skip_whitespace (l : pystr) : pystr :=
  match l with
  | c :: l' => if is_whitespace c then skip_whitespace l' else l
  | [] => []
  end.

Definition is_digit (c : N) : bool := (48 <=? c)%N && (c <=? 57)%N.

Definition hex_value (c : N) : option N :=
  if is_digit c then Some (c - 48)%N
  else if (97 <=? c)%N && (c <=? 102)%N then Some (c - 87)%N
  else if (65 <=? c)%N && (c <=? 70)%N then Some (c - 55)%N
  else None.

(** Four hex digits: [c <<= 4; c |= digit] for each. *)
Definition hex4_value (a b c d : N) : option N :=
  match hex_value a, hex_value b, hex_value c, hex_value d with
  | Some x, Some y, Some z, Some w =>
      Some (N.lor (N.shiftl (N.lor (N.shiftl (N.lor (N.shiftl x 4) y) 4) z) 4) w)
  | _, _, _, _ => None
  end.

Definition join_surrogates (hi lo : N) : N :=
  (0x10000 + N.lor (N.shiftl (N.land hi 0x3FF) 10) (N.land lo 0x3FF))%N.

Definition simple_escape (c : N) : option N :=
  if (c =? QUOTE)%N then Some QUOTE
  else if (c =? BACKSLASH)%N then Some BACKSLASH
  else if (c =? ch "/")%N then Some (ch "/")
  else if (c =? ch "b")%N then Some 8%N
  else if (c =? ch "f")%N then Some 12%N
  else if (c =? ch "n")%N then Some 10%N
  else if (c =? ch "r")%N then Some 13%N
  else if (c =? ch "t")%N then Some 9%N
  else None.

Definition prepend (c : N) (r : option (pystr * pystr)) : option (pystr * pystr) :=
  match r with
  | Some (s, rest) => Some (c :: s, rest)
  | None => None
  end.

(** One turn of the loop of [scanstring] in strict mode; [scanstring]
    stands for the turns that follow.  [None] is one of the errors
    (unterminated string, control character, invalid escape).  After a
    [\u] escape of a high surrogate, a following [\u] escape of a low
    surrogate is joined with it into one code point. *)
Definition scanstring_from (scanstring : pystr -> option (pystr * pystr)) (l : pystr)
  : option (pystr * pystr) :=
  match l with
  | [] => None
  | c :: l1 =>
      if (c =? QUOTE)%N then Some ([], l1)
      else if (c =? BACKSLASH)%N then
        match l1 with
        | [] => None
        | e :: l2 =>
            if (e =? LETTER_u)%N then
              match l2 with
              | h1 :: h2 :: h3 :: h4 :: l3 =>
                  match hex4_value h1 h2 h3 h4 with
                  | None => None
                  | Some u =>
                      if is_high_surrogate u then
                        match l3 with
                        | b :: x :: l4 =>
                            if (b =? BACKSLASH)%N && (x =? LETTER_u)%N then
                              match l4 with
                              | g1 :: g2 :: g3 :: g4 :: l5 =>
                                  match hex4_value g1 g2 g3 g4 with
                                  | None => None
                                  | Some u2 =>
                                      if is_low_surrogate u2
                                      then prepend (join_surrogates u u2) (scanstring l5)
                                      else prepend u (scanstring l3)
                                  end
                              | _ => None
                              end
                            else prepend u (scanstring l3)
                        | _ => prepend u (scanstring l3)
                        end
                      else prepend u (scanstring l3)
                  end
              | _ => None
              end
            else
              match simple_escape e with
              | Some c' => prepend c' (scanstring l2)
              | None => None
              end
        end
      else if (c <=? 0x1F)%N then None
      else prepend c (scanstring l1)
  end.

(** [scanstring], from just after the opening quote: the string and the
    text after its closing quote. *)
Fixpoint scanstring (l : pystr) {struct l} : option (pystr * pystr) :=
  scanstring_from scanstring l.

(** The longest prefix of digits and what follows it. *)
Fixpoint span_digits (l : pystr) : pystr * pystr :=
  match l with
  | c :: l' =>
      if is_digit c then let (ds, rest) := span_digits l' in (c :: ds, rest)
      else ([], l)
  | [] => ([], [])
  end.

(** [int] of a sequence of decimal digits. *)
Definition digits_value (ds : pystr) : Z :=
  fold_left (fun acc c => (10 * acc + (Z.of_N c - 48))%Z) ds 0%Z.

(** The integer part of a number: [0], or a digit from 1 to 9 followed
    by digits. *)
Definition match_integer (l : pystr) : option (pystr * pystr) :=
  match l with
  | c :: l' =>
      if (c =? ch "0")%N then Some ([c], l')
      else if is_digit c then let (ds, rest) := span_digits l' in Some (c :: ds, rest)
      else None
  | [] => None
  end.

(** [.] and at least one digit, when present. *)
Definition match_fraction (l : pystr) : pystr * pystr :=
  match l with
  | dot :: d :: l' =>
      if (dot =? ch ".")%N && is_digit d
      then let (ds, rest) := span_digits l' in (dot :: d :: ds, rest)
      else ([], l)
  | _ => ([], l)
  end.

(** [e] or [E], a sign if there is one, and at least one digit; the
    scanner backtracks when no digit follows. *)
Definition match_exponent (l : pystr) : pystr * pystr :=
  match l with
  | e :: l1 =>
      if (e =? ch "e")%N || (e =? ch "E")%N then
        let (sign, l2) :=
          match l1 with
          | s :: l1' => if (s =? ch "-")%N || (s =? ch "+")%N then ([s], l1') else ([], l1)
          | [] => ([], l1)
          end in
        match span_digits l2 with
        | ([], _) => ([], l)
        | (ds, rest) => (e :: sign ++ ds, rest)
        end
      else ([], l)
  | [] => ([], l)
  end.

(** [_match_number]: an [int] when the literal has neither fraction nor
    exponent, a [float] otherwise. *)
Definition match_number (l : pystr) : option (pyvalue * pystr) :=
  let (neg, l0) :=
    match l with
    | c :: l' => if (c =? ch "-")%N then (true, l') else (false, l)
    | [] => (false, l)
    end in
  match match_integer l0 with
  | None => None
  | Some (int_digits, l1) =>
      let (frac, l2) := match_fraction l1 in
      let (exp, l3) := match_exponent l2 in
      match frac, exp with
      | [], [] =>
          let z := digits_value int_digits in
          Some (PyInt (if neg then (- z)%Z else z), l3)
      | _, _ =>
          Some (PyFloat ((if neg then [ch "-"] else []) ++ int_digits ++ frac ++ exp), l3)
      end
  end.

(** The text after the prefix [p], when [l] starts with it. *)
Fixpoint strip_prefix (p l : pystr) : option pystr :=
  match p, l with
  | [], _ => Some l
  | a :: p', b :: l' => if (a =? b)%N then strip_prefix p' l' else None
  | _ :: _, [] => None
  end.

(** The named constants and the numbers: what [scan_once] tries when the
    text starts neither a string, nor an object, nor an array. *)
Definition scan_atom (l : pystr) : option (pyvalue * pystr) :=
  match strip_prefix (str "null") l with
  | Some rest => Some (PyNone, rest)
  | None =>
  match strip_prefix (str "true") l with
  | Some rest => Some (PyBool true, rest)
  | None =>
  match strip_prefix (str "false") l with
  | Some rest => Some (PyBool false, rest)
  | None =>
  match strip_prefix (str "NaN") l with
  | Some rest => Some (PyFloat (str "NaN"), rest)
  | None =>
  match strip_prefix (str "Infinity") l with
  | Some rest => Some (PyFloat (str "Infinity"), rest)
  | None =>
  match strip_prefix (str "-Infinity") l with
  | Some rest => Some (PyFloat (str "-Infinity"), rest)
  | None => match_number l
  end end end end end end.

(** [scan_once] with the loops of [_parse_object] and [_parse_array].
    A fuel above twice the length of the text is never used up
    ([fuel_enough] below); [None] stands for the errors of the scanner.  A key met again overwrites its value and
    keeps its place, as [PyDict_SetItem] does. *)
Fixpoint scan_once (fuel : nat) (l : pystr) : option (pyvalue * pystr) :=
  match fuel with
  | O => None
  | S fuel' =>
      match l with
      | [] => None
      | c :: l1 =>
          if (c =? QUOTE)%N then
            match scanstring l1 with
            | Some (s, rest) => Some (PyStr s, rest)
            | None => None
            end
          else if (c =? LBRACE)%N then
            match skip_whitespace l1 with
            | c' :: rest =>
                if (c' =? RBRACE)%N then Some (PyDict [], rest)
                else parse_object_items fuel' (c' :: rest) []
            | [] => None
            end
          else if (c =? LBRACKET)%N then
            match skip_whitespace l1 with
            | c' :: rest =>
                if (c' =? RBRACKET)%N then Some (PyList [], rest)
                else parse_array_items fuel' (c' :: rest) []
            | [] => None
            end
          else scan_atom l
      end
  end

with parse_object_items (fuel : nat) (l : pystr) (acc : dict pyvalue)
  : option (pyvalue * pystr) :=
  match fuel with
  | O => None
  | S fuel' =>
      match l with
      | q :: l1 =>
          if (q =? QUOTE)%N then
            match scanstring l1 with
            | None => None
            | Some (key, l2) =>
                match skip_whitespace l2 with
                | colon :: l3 =>
                    if (colon =? COLON)%N then
                      match scan_once fuel' (skip_whitespace l3) with
                      | None => None
                      | Some (v, l4) =>
                          let acc' := dict_set acc key v in
                          match skip_whitespace l4 with
                          | d :: l5 =>
                              if (d =? RBRACE)%N then Some (PyDict acc', l5)
                              else if (d =? COMMA)%N
                              then parse_object_items fuel' (skip_whitespace l5) acc'
                              else None
                          | [] => None
                          end
                      end
                    else None
                | [] => None
                end
            end
          else None
      | [] => None
      end
  end

with parse_array_items (fuel : nat) (l : pystr) (acc : list pyvalue)
  : option (pyvalue * pystr) :=
  match fuel with
  | O => None
  | S fuel' =>
      match scan_once fuel' l with
      | None => None
      | Some (v, l1) =>
          let acc' := acc ++ [v] in
          match skip_whitespace l1 with
          | d :: l2 =>
              if (d =? RBRACKET)%N then Some (PyList acc', l2)
              else if (d =? COMMA)%N
              then parse_array_items fuel' (skip_whitespace l2) acc'
              else None
          | [] => None
          end
      end
  end.

Definition BOM : N := 0xFEFF.

(** [json.loads]: no byte-order mark, optional whitespace, one value,
    optional whitespace, the end of the text.  [None] is a
    [JSONDecodeError].  The limits of the interpreter (the depth of the
    recursion, the number of digits of an integer) are not modelled: a
    text beyond them makes [json.loads] raise, whatever is computed
    here. *)
Definition json_loads (s : pystr) : option pyvalue :=
  match s with
  | c :: _ =>
      if (c =? BOM)%N then None
      else
        match scan_once (S (2 * List.length s)) (skip_whitespace s) with
        | Some (v, rest) =>
            match skip_whitespace rest with
            | [] => Some v
            | _ :: _ => None
            end
        | None => None
        end
  | [] => None
  end.

(** *** Predicates of the statements *)

(** The text [X] does not start with a [\u] escape that the scanner
    would join to a high surrogate before it, or reject. *)
Definition no_low_escape (X : pystr) : Prop :=
  match X with
  | b :: x :: l4 =>
      ((b =? BACKSLASH) && (x =? LETTER_u))%N = true ->
      exists g1 g2 g3 g4 l5 u2,
        l4 = g1 :: g2 :: g3 :: g4 :: l5 /\ hex4_value g1 g2 g3 g4 = Some u2 /\
        is_low_surrogate u2 = false
  | _ => True
  end.

(** The keys and the descriptions of a map are Python strings, and no
    key occurs twice. *)
Definition entry_ok (kv : pystr * pystr) : Prop := str_ok (fst kv) /\ str_ok (snd kv).

Definition map_ok (d : KeyDescriptionMap) : Prop := dict_ok d /\ Forall entry_ok d.

(** In no key and no description is a high surrogate immediately followed
    by a low surrogate. *)
Definition pair_free (kv : pystr * pystr) : Prop :=
  has_surrogate_pair (fst kv) = false /\ has_surrogate_pair (snd kv) = false.

Definition no_surrogate_pairs (d : KeyDescriptionMap) : Prop := Forall pair_free d.

End Json.
Export Json.

(* ===================================================================== *)
(** ** The program state, exceptions and the configuration store         *)
(* ===================================================================== *)

Module Store.

Inductive exn : Type :=
| OSError              (* [os.makedirs], [open], a failed write *)
| UnicodeDecodeError   (* [f.read()] on bytes that are not text *)
| JSONDecodeError.     (* [json.load] *)

Inductive outcome (A : Type) : Type :=
| Val (a : A)
| Raise (e : exn).
Arguments Val {A} a.
Arguments Raise {A} e.

(** What is at the place of the configuration file. *)
Inductive file_state : Type :=
| Absent                   (* [os.path.exists] is false *)
| NoAccess                 (* it exists; [open(.., "r")] raises *)
| Undecodable              (* it opens; its bytes are not text *)
| Content (text : pystr).  (* it reads as [text] *)

(** What happens to a write to the configuration file. *)
Inductive write_fault : Type :=
| NoFault                  (* the whole text reaches the file *)
| OpenDenied               (* [open(.., "w")] raises: permissions, path *)
| WriteCut (n : nat).      (* the file is truncated, [n] characters are
                              written, then the write raises: disk full *)

(** The file system as the program sees it.  The configuration directory
    either exists or can be created ([DirAvailable]), with what is at
    the path of the file and how a write would go, or it can neither be
    found nor be created ([DirUnavailable]: [os.makedirs] raises). *)
Inductive fsys : Type :=
| DirUnavailable
| DirAvailable (f : file_state) (wf : write_fault).

(** The attributes of the one [FnKeyWindow]: [fn_keys] refers to a
    dictionary of the state, [key_labels] maps a key to its [QLabel] and
    [layout] lists the labels of the main layout from top to bottom. *)
Record FnKeyWindow : Type := {
  fn_keys : nat;
  key_labels : dict nat;
  layout : list nat
}.

(** The state of the program: the file system, the dictionaries of
    strings and the widgets it has created (an object is referred to by
    its index, so that two references to one object see the same
    content), and the window. *)
Record world : Type := {
  fs : fsys;
  dicts : list KeyDescriptionMap;
  widgets : list pystr;
  window : FnKeyWindow
}.

Definition M (A : Type) : Type := world -> world * outcome A.

Definition ret {A} (a : A) : M A := fun w => (w, Val a).

Definition bind {A B} (m : M A) (k : A -> M B) : M B :=
  fun w =>
    match m w with
    | (w', Val a) => k a w'
    | (w', Raise e) => (w', Raise e)
    end.

Definition raise {A} (e : exn) : M A := fun w => (w, Raise e).

(** [try: body  except: handler], the bare [except] that catches all. *)
Definition try_except {A} (body handler : M A) : M A :=
  fun w =>
    match body w with
    | (w', Val a) => (w', Val a)
    | (w', Raise _) => handler w'
    end.

Declare Scope py_scope.
Delimit Scope py_scope with py.
Notation "x <- m ;; k" := (bind m (fun x => k))
  (at level 61, m at next level, right associativity) : py_scope.
Notation "m ;; k" := (bind m (fun _ => k))
  (at level 61, right associativity) : py_scope.
Local Open Scope py_scope.

Definition get_fs : M fsys := fun w => (w, Val (fs w)).

Definition set_fs (f : fsys) : M unit :=
  fun w => ({| fs := f; dicts := dicts w; widgets := widgets w; window := window w |}, Val tt).

(** The path [get_config_path] returns:
    [os.path.join(config_dir, "fn_key_helper.json")]. *)
Inductive path : Type := fn_key_helper_json.

(** [os.makedirs(config_dir, exist_ok=True)]. *)
Definition os_makedirs : M unit :=
  f <- get_fs ;;
  match f with
  | DirUnavailable => raise OSError
  | DirAvailable _ _ => ret tt
  end.

Definition get_config_path : M path :=
  os_makedirs ;;
  ret fn_key_helper_json.

Definition os_path_exists (p : path) : M bool :=
  f <- get_fs ;;
  match f with
  | DirAvailable Absent _ => ret false
  | DirAvailable _ _ => ret true
  | DirUnavailable => ret false
  end.

(** [with open(p, "r") as f: f.read()]. *)
Definition read_text (p : path) : M pystr :=
  f <- get_fs ;;
  match f with
  | DirAvailable (Content text) _ => ret text
  | DirAvailable Undecodable _ => raise UnicodeDecodeError
  | _ => raise OSError
  end.

(** [with open(p, "w") as f: f.write(text)]: opening truncates the file,
    whatever it held.  The state records the text the file holds.  That
    the file can be read afterwards is not a matter of the write (a file
    that can be written and not read stays so): the statements that
    read a written file back take it as a hypothesis. *)
Definition write_text (p : path) (text : pystr) : M unit :=
  f <- get_fs ;;
  match f with
  | DirAvailable _ NoFault => set_fs (DirAvailable (Content text) NoFault)
  | DirAvailable _ (WriteCut n) =>
      set_fs (DirAvailable (Content (firstn n text)) (WriteCut n)) ;;
      raise OSError
  | _ => raise OSError
  end.

Definition json_load (text : pystr) : M pyvalue :=
  match json_loads text with
  | Some v => ret v
  | None => raise JSONDecodeError
  end.

Definition default_keys : KeyDescriptionMap :=
  [ (str "F1", str "Dim Screen");
    (str "F2", str "Brighten Screen");
    (str "F3", str "??");
    (str "F4", str "?");
    (str "F5", str "Dim keyboard LED");
    (str "F6", str "Brighten keyboard LED");
    (str "F7", str "Rewind");
    (str "F8", str "Play/Pause");
    (str "F9", str "Fastforward");
    (str "F10", str "Mute");
    (str "F11", str "Lower Volume");
    (str "F12", str "Increase Volume") ].

(** [FnKeyWindow.load_fn_keys]. *)
Definition load_fn_keys : M pyvalue :=
  config_file <- get_config_path ;;
  file_exists <- os_path_exists config_file ;;
  if file_exists then
    try_except
      (text <- read_text config_file ;; json_load text)
      (ret (dict_value default_keys))
  else ret (dict_value default_keys).

(** [FnKeyWindow.save_fn_keys].  The dictionary is read and not
    written: its items are the argument. *)
Definition save_fn_keys (fn_keys : KeyDescriptionMap) : M unit :=
  config_file <- get_config_path ;;
  write_text config_file (json_dumps fn_keys).

(** What [load_fn_keys] returns when the directory is available. *)
Definition loaded_value (f : file_state) : pyvalue :=
  match f with
  | Content text =>
      match json_loads text with
      | Some v => v
      | None => dict_value default_keys
      end
  | _ => dict_value default_keys
  end.

(** The state with another file system. *)
Definition with_fs (w : world) (f : fsys) : world :=
  {| fs := f; dicts := dicts w; widgets := widgets w; window := window w |}.

End Store.
Export Store.

(* ===================================================================== *)
(** ** The edit dialog and the display surface                            *)
(* ===================================================================== *)

Module Gui.
Local Open Scope py_scope.

(** *** Objects *)

(** The dictionary a reference denotes.  The program only holds
    references it has been given by [new_dict]; elsewhere the empty
    dictionary keeps the function total. *)
Definition lookup_dict (w : world) (r : nat) : KeyDescriptionMap := nth r (dicts w) [].

(** The text of a [QLabel] or [QLineEdit]: a widget is the text it
    holds, set when it is created and by [setText] or the user's typing,
    and returned by [text()].  The functions of this module give a
    widget its text as it is: they follow the program on texts Qt
    returns as given, as it does a text without a high surrogate
    immediately followed by a low one; [Qt] below has the conversion. *)
Definition lookup_text (w : world) (r : nat) : pystr := nth r (widgets w) [].

Definition read_dict (r : nat) : M KeyDescriptionMap := fun w => (w, Val (lookup_dict w r)).

(** A new dictionary object with the items [d]. *)
Definition new_dict (d : KeyDescriptionMap) : M nat :=
  fun w =>
    ({| fs := fs w; dicts := dicts w ++ [d]; widgets := widgets w; window := window w |},
     Val (List.length (dicts w))).

(** [QLabel(text)] and [QLineEdit(text)]: a new widget showing [text],
    for a text Qt holds as given. *)
Definition new_widget (text : pystr) : M nat :=
  fun w =>
    ({| fs := fs w; dicts := dicts w; widgets := widgets w ++ [text]; window := window w |},
     Val (List.length (widgets w))).

(** [edit.text()]. *)
Definition text (r : nat) : M pystr := fun w => (w, Val (lookup_text w r)).

Fixpoint list_update {A} (l : list A) (i : nat) (x : A) : list A :=
  match l, i with
  | [], _ => []
  | _ :: l', O => x :: l'
  | y :: l', S i' => y :: list_update l' i' x
  end.

(** [label.setText(text)], and the user typing [text] into a field. *)
Definition setText (r : nat) (text : pystr) : M unit :=
  fun w =>
    ({| fs := fs w; dicts := dicts w; widgets := list_update (widgets w) r text;
        window := window w |}, Val tt).

Definition get_window : M FnKeyWindow := fun w => (w, Val (window w)).

Definition set_window (win : FnKeyWindow) : M unit :=
  fun w => ({| fs := fs w; dicts := dicts w; widgets := widgets w; window := win |}, Val tt).

(** [for x in l: body], threading the local variable [b]. *)
Fixpoint for_each {A B} (l : list A) (body : B -> A -> M B) (b : B) : M B :=
  match l with
  | [] => ret b
  | x :: l' => b' <- body b x ;; for_each l' body b'
  end.

(** *** SettingsDialog *)

Record SettingsDialog : Type := {
  sd_fn_keys : nat;     (* [self.fn_keys], the copy *)
  sd_edits : dict nat   (* [self.edits]: key to [QLineEdit] *)
}.

(** [SettingsDialog.__init__(fn_keys)]. *)
Definition SettingsDialog_init (caller_fn_keys : nat) : M SettingsDialog :=
  d <- read_dict caller_fn_keys ;;
  copy <- new_dict d ;;                          (* fn_keys.copy() *)
  items <- read_dict copy ;;
  edits <- for_each items
             (fun edits kv =>
                edit <- new_widget (snd kv) ;;   (* QLineEdit(desc) *)
                ret (dict_set edits (fst kv) edit))
             [] ;;
  ret {| sd_fn_keys := copy; sd_edits := edits |}.

(** [SettingsDialog.get_updated_keys]: a new dictionary. *)
Definition get_updated_keys (dlg : SettingsDialog) : M nat :=
  updated <- for_each (sd_edits dlg)
               (fun updated ke =>
                  t <- text (snd ke) ;;
                  ret (dict_set updated (fst ke) t))
               [] ;;
  new_dict updated.

Inductive DialogCode : Type := Accepted | Rejected.

(** What the user does while the dialog is open: the texts typed, each
    into the field of a key, then Save or Cancel. *)
Record interaction : Type := {
  typed : list (pystr * pystr);
  choice : DialogCode
}.

(** The user replaces the text of the field of [key]; a key that has no
    field cannot be typed into. *)
Definition type_into (dlg : SettingsDialog) (kt : pystr * pystr) : M unit :=
  match dict_get (sd_edits dlg) (fst kt) with
  | Some edit => setText edit (snd kt)
  | None => ret tt
  end.

(** [dialog.exec_()]: the dialog runs until the user chooses. *)
Definition exec_ (dlg : SettingsDialog) (user : interaction) : M DialogCode :=
  for_each (typed user) (fun _ kt => type_into dlg kt) tt ;;
  ret (choice user).

(** *** FnKeyWindow *)

Definition placeholder : pystr := str "(No function)".

(** The f-string of a row:
    [f"<b>{key}:</b> {desc}" if desc else f"<b>{key}:</b> (No function)"]. *)
Definition label_text (key desc : pystr) : pystr :=
  match desc with
  | _ :: _ => str "<b>" ++ key ++ str ":</b> " ++ desc
  | [] => str "<b>" ++ key ++ str ":</b> " ++ placeholder
  end.

Definition close_text : pystr := str "Press Esc or click to close".

Definition set_fn_keys (r : nat) : M unit :=
  win <- get_window ;;
  set_window {| fn_keys := r; key_labels := key_labels win; layout := layout win |}.

(** [self.key_labels[key] = label; layout.addWidget(label)]. *)
Definition add_key_label (key : pystr) (label : nat) : M unit :=
  win <- get_window ;;
  set_window {| fn_keys := fn_keys win;
                key_labels := dict_set (key_labels win) key label;
                layout := layout win ++ [label] |}.

Definition layout_addWidget (label : nat) : M unit :=
  win <- get_window ;;
  set_window {| fn_keys := fn_keys win; key_labels := key_labels win;
                layout := layout win ++ [label] |}.

(** [FnKeyWindow.__init__] from the assignment of [self.fn_keys] on,
    when [load_fn_keys] has returned the map of strings [loaded]: the
    rows of the keys, then the closing hint. *)
Definition FnKeyWindow_init_rows (loaded : KeyDescriptionMap) : M unit :=
  r <- new_dict loaded ;;
  set_window {| fn_keys := r; key_labels := []; layout := [] |} ;;
  items <- read_dict r ;;
  for_each items
    (fun _ kv =>
       label <- new_widget (label_text (fst kv) (snd kv)) ;;
       add_key_label (fst kv) label)
    tt ;;
  close_label <- new_widget close_text ;;
  layout_addWidget close_label.

(** [FnKeyWindow.update_key_labels]. *)
Definition update_key_labels : M unit :=
  win <- get_window ;;
  for_each (key_labels win)
    (fun _ kl =>
       current <- read_dict (fn_keys win) ;;
       let desc := dict_get_default current (fst kl) [] in
       setText (snd kl) (label_text (fst kl) desc))
    tt.

(** [FnKeyWindow.show_settings]. *)
Definition show_settings (user : interaction) : M unit :=
  win <- get_window ;;
  dialog <- SettingsDialog_init (fn_keys win) ;;
  code <- exec_ dialog user ;;
  match code with
  | Accepted =>
      updated <- get_updated_keys dialog ;;
      set_fn_keys updated ;;
      current <- read_dict updated ;;
      save_fn_keys current ;;
      update_key_labels
  | Rejected => ret tt
  end.

(** The state before the window is built, on the file system [f]. *)
Definition boot (f : fsys) : world :=
  {| fs := f; dicts := []; widgets := [];
     window := {| fn_keys := 0; key_labels := []; layout := [] |} |}.

(** The state in which the window shows, when [load_fn_keys] returns a
    map of strings.  [None] otherwise: [load_fn_keys] raises, or it
    returns a value that is no dictionary, on which [.items()] raises
    [AttributeError], or a dictionary with a value that is no string,
    which this development does not follow. *)
Definition startup (f : fsys) : option world :=
  match load_fn_keys (boot f) with
  | (w, Val v) =>
      match as_key_map v with
      | Some loaded =>
          match FnKeyWindow_init_rows loaded w with
          | (w', Val _) => Some w'
          | (_, Raise _) => None
          end
      | None => None
      end
  | (_, Raise _) => None
  end.

(** The texts of the main layout, top to bottom. *)
Definition rendered (w : world) : list pystr :=
  map (lookup_text w) (layout (window w)).

(** The map the window holds. *)
Definition current_map (w : world) : KeyDescriptionMap :=
  lookup_dict w (fn_keys (window w)).

(** *** States named in the statements *)

Definition with_widgets (w : world) (ws : list pystr) : world :=
  {| fs := fs w; dicts := dicts w; widgets := ws; window := window w |}.

Definition with_dicts (w : world) (ds : list KeyDescriptionMap) : world :=
  {| fs := fs w; dicts := ds; widgets := widgets w; window := window w |}.

(** The settings button clicked once for each interaction, one dialog
    after the other. *)
Definition sessions (users : list interaction) : M unit :=
  for_each users (fun _ user => show_settings user) tt.

(** The row of an item. *)
Definition row (kv : pystr * pystr) : pystr := label_text (fst kv) (snd kv).

(** *** The effect of the user on a map, stated on the map itself *)

(** Typing [t] into the field of [k] replaces the description of [k];
    there is no field for a key the map does not have. *)
Definition edit_one (m : KeyDescriptionMap) (kt : pystr * pystr) : KeyDescriptionMap :=
  match dict_get m (fst kt) with
  | Some _ => dict_set m (fst kt) (snd kt)
  | None => m
  end.

Definition apply_edits (typed : list (pystr * pystr)) (m : KeyDescriptionMap)
  : KeyDescriptionMap :=
  fold_left edit_one typed m.

(** The same on the texts of the widgets. *)
Definition type_edits (edits : dict nat) (typed : list (pystr * pystr)) (ws : list pystr)
  : list pystr :=
  fold_left
    (fun ws kt =>
       match dict_get edits (fst kt) with
       | Some e => list_update ws e (snd kt)
       | None => ws
       end)
    typed ws.

(** *** The window in the state [Showing]

    The window has been built from a map with the keys [loaded_keys]:
    it refers to a dictionary with these keys, its labels are the first
    widgets of the state, one per key and then the closing hint, and each
    label of a key shows the row of that key in the current map. *)
Definition showing (loaded_keys : list pystr) (w : world) : Prop :=
  let win := window w in
  let n := List.length loaded_keys in
  fn_keys win < List.length (dicts w) /\
  dict_ok (current_map w) /\
  keys (current_map w) = loaded_keys /\
  key_labels win = combine loaded_keys (seq 0 n) /\
  layout win = seq 0 (S n) /\
  exists others, widgets w = map row (current_map w) ++ close_text :: others.

(** The state after the dialog has been built on the dictionary [r] and
    the user has typed. *)
Definition after_typing (w : world) (r : nat) (user : interaction) : world :=
  {| fs := fs w; dicts := dicts w ++ [lookup_dict w r];
     widgets := widgets w ++ map snd (apply_edits (typed user) (lookup_dict w r));
     window := window w |}.

(** The state when the dialog has been accepted and the window refers
    to the map it returned, before the map is saved. *)
Definition accepted_state (w : world) (user : interaction) : world :=
  let cur := current_map w in
  {| fs := fs w;
     dicts := dicts w ++ [cur; apply_edits (typed user) cur];
     widgets := widgets w ++ map snd (apply_edits (typed user) cur);
     window := {| fn_keys := S (List.length (dicts w));
                  key_labels := key_labels (window w);
                  layout := layout (window w) |} |}.

(** The states of a run: the window has been built from a loaded map
    of strings, and every dialog opened since has returned. *)
Definition reachable (w : world) : Prop :=
  exists f users w0, startup f = Some w0 /\ sessions users w0 = (w, Val tt).

(** The state at the end of [__init__] on the file system [f], when
    there is one. *)
Definition started (f : fsys) : world :=
  match startup f with
  | Some w => w
  | None => boot f
  end.

End Gui.
Export Gui.

(* ===================================================================== *)
(** ** Text in a Qt widget                                                *)
(* ===================================================================== *)

(** A widget of [Gui] is the Python string it was given.  Qt holds the
    text of a widget as a [QString], a sequence of UTF-16 code units:
    PyQt5 writes a code point above the basic plane as a high and a low
    surrogate, every other code point as one unit, and builds the string
    that [text()] returns from the units, reading a high surrogate
    followed by a low surrogate as one code point.  A string comes back
    as it was given unless a high surrogate is immediately followed by a
    low one in it.  [Qt] is the dialog with this conversion, on any map;
    it is the dialog of [Gui] on the texts that come back as given. *)

Module Qt.
Local Open Scope py_scope.

(** The string [text()] returns for a widget that was given [s]. *)
Fixpoint qt_text (s : pystr) : pystr :=
  match s with
  | [] => []
  | c :: s' =>
      match s' with
      | c' :: rest =>
          if is_high_surrogate c && is_low_surrogate c'
          then join_surrogates c c' :: qt_text rest
          else c :: qt_text s'
      | [] => [c]
      end
  end.

(** The number of UTF-16 code units of a string. *)
Definition utf16_length (s : pystr) : N :=
  fold_right (fun c n => ((if c <? 0x10000 then 1 else 2) + n)%N) 0%N s.

(** [QLineEdit.maxLength()], at its default: the user cannot bring the
    text of a field beyond it. *)
Definition maxLength : N := 32767.

(** The descriptions of a map come back from a widget as they are. *)
Definition descriptions_plain (d : KeyDescriptionMap) : Prop :=
  Forall (fun kv => has_surrogate_pair (snd kv) = false) d.

(** The items of a map with the descriptions as widgets return them. *)
Definition held (d : list (pystr * pystr)) : list (pystr * pystr) :=
  map (fun kv => (fst kv, qt_text (snd kv))) d.

(** A text the user can leave in a field, and that the field returns as
    it is. *)
Definition field_text (t : pystr) : Prop :=
  has_surrogate_pair t = false /\ (utf16_length t <= maxLength)%N.

(** [QLineEdit(contents)]. *)
Definition QLineEdit (contents : pystr) : M nat := new_widget (qt_text contents).

(** [SettingsDialog.__init__(fn_keys)]. *)
Definition SettingsDialog_init (caller_fn_keys : nat) : M SettingsDialog :=
  d <- read_dict caller_fn_keys ;;
  copy <- new_dict d ;;                          (* fn_keys.copy() *)
  items <- read_dict copy ;;
  edits <- for_each items
             (fun edits kv =>
                edit <- QLineEdit (snd kv) ;;
                ret (dict_set edits (fst kv) edit))
             [] ;;
  ret {| sd_fn_keys := copy; sd_edits := edits |}.

(** The user replaces the text of the field of [key]: the field then
    returns the text as Qt holds it. *)
Definition type_into (dlg : SettingsDialog) (kt : pystr * pystr) : M unit :=
  match dict_get (sd_edits dlg) (fst kt) with
  | Some edit => setText edit (qt_text (snd kt))
  | None => ret tt
  end.

(** [dialog.exec_()]. *)
Definition exec_ (dlg : SettingsDialog) (user : interaction) : M DialogCode :=
  for_each (typed user) (fun _ kt => type_into dlg kt) tt ;;
  ret (choice user).

End Qt.

(* ===================================================================== *)
(** ** Notions for the properties of whole runs                           *)
(* ===================================================================== *)

Module Run.

(** The characters of the syntax and of the escapes: printable ASCII. *)
Definition printable (c : N) : Prop := (32 <= c /\ c <= 126)%N.

(** The characters [json.dump] writes with [indent=2]. *)
Definition file_char (c : N) : Prop := c = NEWLINE \/ printable c.

(** The last text typed into the field of [k], if there is one. *)
Definition last_typed (typed : list (pystr * pystr)) (k : pystr) : option pystr :=
  fold_left (fun acc kt => if str_eqb (fst kt) k then Some (snd kt) else acc) typed None.


Definition accepted (user : interaction) : bool :=
  match choice user with
  | Accepted => true
  | Rejected => false
  end.

(** What was typed into the dialogs that were accepted, in order. *)
Definition accepted_typing (users : list interaction) : list (pystr * pystr) :=
  flat_map (fun user => if accepted user then typed user else []) users.

(** The form of a dialog read from top to bottom: each key with the
    text its field holds. *)
Definition form (w : world) (dlg : SettingsDialog) : KeyDescriptionMap :=
  map (fun ke => (fst ke, lookup_text w (snd ke))) (sd_edits dlg).

(** The texts of the widgets after [update_key_labels] has gone through
    the labels [labels] with the map [current]. *)
Definition relabel (current : KeyDescriptionMap) (labels : dict nat) (ws : list pystr)
  : list pystr :=
  fold_left
    (fun ws kl =>
       list_update ws (snd kl)
         (label_text (fst kl) (dict_get_default current (fst kl) [])))
    labels ws.

(** The file holds the serialization of the map the window holds. *)
Definition in_sync (w : world) : Prop :=
  fs w = DirAvailable (Content (json_dumps (current_map w))) NoFault.

(** The texts [encode_basestring_ascii] writes between the quotes, by
    their shape: characters other than the quote and the backslash, a
    backslash with a character other than [u], and a backslash with [u]
    and four characters. *)
Inductive escaped : pystr -> Prop :=
| escaped_nil : escaped []
| escaped_literal c t :
    c <> QUOTE -> c <> BACKSLASH -> escaped t -> escaped (c :: t)
| escaped_simple e t :
    e <> LETTER_u -> escaped t -> escaped (BACKSLASH :: e :: t)
| escaped_unicode h1 h2 h3 h4 t :
    escaped t -> escaped (BACKSLASH :: LETTER_u :: h1 :: h2 :: h3 :: h4 :: t).

(** The scanner has failed on a cut text, or it has returned with the
    text left before the cut satisfying [P]. *)
Definition failed_or {A} (P : pystr -> Prop) (r : option (A * pystr)) : Prop :=
  match r with
  | None => True
  | Some (_, rest) => P rest
  end.

End Run.
Export Run.


(* ===================================================================== *)
(** ** Facts on strings and dictionaries                                  *)
(* ===================================================================== *)

Lemma str_eqb_eq a b : str_eqb a b = true <-> a = b.
Proof.
  revert b; induction a as [|x a IH]; intros [|y b]; simpl; split; intro H;
    try reflexivity; try discriminate.
  - apply andb_true_iff in H as [Hx Hab]. apply N.eqb_eq in Hx. apply IH in Hab.
    now subst.
  - injection H as -> ->. rewrite N.eqb_refl. simpl. now apply IH.
Qed.

Lemma str_eqb_refl a : str_eqb a a = true.
Proof. now apply str_eqb_eq. Qed.

Lemma str_eqb_neq a b : a <> b -> str_eqb a b = false.
Proof.
  intros H. destruct (str_eqb a b) eqn:E; [|reflexivity].
  apply str_eqb_eq in E. contradiction.
Qed.

Section DictFacts.
Context {V : Type}.
Implicit Types (d : dict V) (k : pystr) (v : V).

Lemma dict_get_absent d k : ~ In k (keys d) -> dict_get d k = None.
Proof.
  induction d as [|[k' v'] d IH]; simpl; intros H; [reflexivity|].
  rewrite str_eqb_neq by (intros ->; apply H; now left).
  apply IH. intros Hin. apply H. now right.
Qed.

Lemma dict_get_present d k : In k (keys d) -> exists v, dict_get d k = Some v.
Proof.
  induction d as [|[k' v'] d IH]; simpl; intros H; [contradiction|].
  destruct (str_eqb k' k) eqn:E; [now exists v'|].
  destruct H as [->|H]; [now rewrite str_eqb_refl in E|]. now apply IH.
Qed.

(** A new key goes last. *)
Lemma dict_set_new d k v : ~ In k (keys d) -> dict_set d k v = d ++ [(k, v)].
Proof.
  induction d as [|[k' v'] d IH]; simpl; intros H; [reflexivity|].
  rewrite str_eqb_neq by (intros ->; apply H; now left).
  f_equal. apply IH. intros Hin. apply H. now right.
Qed.

(** An assignment never changes the keys already there, nor their order. *)
Lemma keys_dict_set_present d k v : In k (keys d) -> keys (dict_set d k v) = keys d.
Proof.
  induction d as [|[k' v'] d IH]; simpl; intros H; [contradiction|].
  destruct (str_eqb k' k) eqn:E; simpl; [reflexivity|].
  f_equal. apply IH. destruct H as [->|H]; [now rewrite str_eqb_refl in E|assumption].
Qed.

Lemma dict_ok_set d k v : dict_ok d -> dict_ok (dict_set d k v).
Proof.
  unfold dict_ok. induction d as [|[k' v'] d IH]; simpl; intros H.
  - constructor; [intros []|constructor].
  - inversion H as [|? ? Hnin Hnd]; subst.
    destruct (str_eqb k' k) eqn:E; simpl; [now constructor|].
    constructor; [|now apply IH].
    intros Hin. apply Hnin.
    destruct (in_dec (list_eq_dec N.eq_dec) k (keys d)) as [Hk|Hk].
    + now rewrite keys_dict_set_present in Hin.
    + rewrite dict_set_new in Hin by assumption.
      unfold keys in Hin. rewrite map_app in Hin. apply in_app_or in Hin as [Hin|Hin];
        [assumption|].
      simpl in Hin. destruct Hin as [<-|[]]. now rewrite str_eqb_refl in E.
Qed.

Lemma dict_get_same d k v : dict_get (dict_set d k v) k = Some v.
Proof.
  induction d as [|[k' v'] d IH]; simpl.
  - now rewrite str_eqb_refl.
  - destruct (str_eqb k' k) eqn:E; simpl; rewrite E; [reflexivity|assumption].
Qed.

Lemma dict_get_other d k k' v : k' <> k -> dict_get (dict_set d k v) k' = dict_get d k'.
Proof.
  intros Hne. induction d as [|[k0 v0] d IH]; simpl.
  - now rewrite str_eqb_neq by congruence.
  - destruct (str_eqb k0 k) eqn:E; simpl.
    + apply str_eqb_eq in E. subst k0. now rewrite str_eqb_neq by congruence.
    + now rewrite IH.
Qed.

(** The items of a dictionary are what [get] answers. *)
Lemma dict_get_item d k v : dict_ok d -> In (k, v) d -> dict_get d k = Some v.
Proof.
  unfold dict_ok. induction d as [|[k' v'] d IH]; simpl; intros Hok Hin; [contradiction|].
  inversion Hok as [|? ? Hnin Hnd]; subst.
  destruct Hin as [Heq|Hin].
  - injection Heq as -> ->. now rewrite str_eqb_refl.
  - rewrite str_eqb_neq; [now apply IH|].
    intros ->. apply Hnin. now apply (in_map fst) in Hin.
Qed.

End DictFacts.

(* ===================================================================== *)
(** ** Facts on the JSON encoder and decoder                              *)
(* ===================================================================== *)

Module JsonFacts.
Local Open Scope N_scope.

Lemma land_shiftl_small a b k : b < 2 ^ k -> N.land (N.shiftl a k) b = 0.
Proof.
  intros Hb. apply N.bits_inj. intros i. rewrite N.land_spec, N.bits_0.
  destruct (N.lt_ge_cases i k) as [Hi|Hi].
  - rewrite N.shiftl_spec_low by assumption. reflexivity.
  - rewrite <- (N.mod_small b (2 ^ k)) by assumption.
    rewrite N.mod_pow2_bits_high by assumption. apply andb_false_r.
Qed.

Lemma lor_shiftl_add a b k : b < 2 ^ k -> N.lor (N.shiftl a k) b = a * 2 ^ k + b.
Proof.
  intros Hb. pose proof (@land_shiftl_small a b k Hb) as H0.
  rewrite <- N.lxor_lor by assumption.
  rewrite <- N.add_nocarry_lxor by assumption.
  now rewrite N.shiftl_mul_pow2.
Qed.

Lemma hex_value_digit x : x < 16 -> hex_value (hex_digit x) = Some x.
Proof.
  intros H.
  assert (E : x = 0 \/ x = 1 \/ x = 2 \/ x = 3 \/ x = 4 \/ x = 5 \/ x = 6 \/ x = 7 \/
              x = 8 \/ x = 9 \/ x = 10 \/ x = 11 \/ x = 12 \/ x = 13 \/ x = 14 \/ x = 15)
    by lia.
  repeat (destruct E as [-> | E]; [reflexivity|]). now subst.
Qed.

Lemma land_15 x : N.land x 15 = x mod 16.
Proof. change 15 with (N.ones 4). now rewrite N.land_ones. Qed.

Lemma land_3FF x : N.land x 0x3FF = x mod 1024.
Proof. change 0x3FF with (N.ones 10). now rewrite N.land_ones. Qed.

(** The four digits [hex4] writes are read back as the number. *)
Lemma hex4_roundtrip c :
  c < 0x10000 ->
  hex4_value (hex_digit (N.land (N.shiftr c 12) 15)) (hex_digit (N.land (N.shiftr c 8) 15))
             (hex_digit (N.land (N.shiftr c 4) 15)) (hex_digit (N.land c 15)) = Some c.
Proof.
  intros Hc. unfold hex4_value.
  rewrite !land_15, !N.shiftr_div_pow2.
  rewrite !hex_value_digit by (apply N.mod_lt; discriminate).
  f_equal.
  rewrite !lor_shiftl_add.
  all: try (change (2 ^ 4) with 16; apply N.mod_lt; discriminate).
  change (2 ^ 4) with 16. change (2 ^ 12) with (16 * 16 * 16). change (2 ^ 8) with (16 * 16).
  rewrite <- !N.Div0.div_div.
  pose proof (N.div_mod c 16). pose proof (N.div_mod (c / 16) 16).
  pose proof (N.div_mod (c / 16 / 16) 16).
  assert (c / 16 / 16 / 16 < 16).
  { rewrite !N.Div0.div_div. apply N.Div0.div_lt_upper_bound. exact Hc. }
  rewrite (N.mod_small (c / 16 / 16 / 16)) by assumption.
  pose proof (N.mod_lt c 16). pose proof (N.mod_lt (c / 16) 16).
  pose proof (N.mod_lt (c / 16 / 16) 16).
  lia.
Qed.

Lemma high_half_eq c : high_half c = 0xD800 + ((c - 0x10000) / 1024) mod 1024.
Proof.
  unfold high_half. rewrite land_3FF, N.shiftr_div_pow2.
  change 0xD800 with (N.shiftl 54 10) at 1.
  rewrite lor_shiftl_add by (apply N.mod_lt; discriminate). reflexivity.
Qed.

Lemma low_half_eq c : low_half c = 0xDC00 + (c - 0x10000) mod 1024.
Proof.
  unfold low_half. rewrite land_3FF.
  change 0xDC00 with (N.shiftl 55 10) at 1.
  rewrite lor_shiftl_add by (apply N.mod_lt; discriminate). reflexivity.
Qed.

Lemma halves c :
  0x10000 <= c -> c < 0x110000 ->
  is_high_surrogate (high_half c) = true /\ is_low_surrogate (low_half c) = true /\
  high_half c < 0x10000 /\ low_half c < 0x10000 /\
  join_surrogates (high_half c) (low_half c) = c.
Proof.
  intros Hlo Hhi.
  rewrite high_half_eq, low_half_eq.
  set (n := c - 0x10000). assert (Hn : n < 0x100000) by (subst n; lia).
  assert (Hq : n / 1024 < 1024) by (apply N.Div0.div_lt_upper_bound; exact Hn).
  rewrite (N.mod_small (n / 1024)) by assumption.
  assert (Hr : n mod 1024 < 1024) by (apply N.mod_lt; discriminate).
  assert (Hdm : n = 1024 * (n / 1024) + n mod 1024) by (apply N.div_mod; discriminate).
  unfold is_high_surrogate, is_low_surrogate, join_surrogates.
  rewrite !land_3FF.
  change 0xD800 with (54 * 1024). change 0xDC00 with (55 * 1024).
  rewrite (N.add_comm (54 * 1024)), (N.add_comm (55 * 1024)).
  rewrite !N.Div0.mod_add.
  rewrite (N.mod_small (n / 1024)) by assumption.
  rewrite N.Div0.mod_mod.
  rewrite lor_shiftl_add by (apply N.mod_lt; discriminate).
  change (2 ^ 10) with 1024.
  assert (Hc : c = n + 0x10000) by (subst n; lia).
  set (q := n / 1024) in *. set (r := n mod 1024) in *.
  clearbody q r n.
  repeat split.
  - apply andb_true_iff; split; apply N.leb_le; lia.
  - apply andb_true_iff; split; apply N.leb_le; lia.
  - lia.
  - lia.
  - lia.
Qed.

(** The four shapes of the replacement of a character. *)
Lemma escape_char_cases c :
  c < 0x110000 ->
  (escape_char c = [c] /\ c <> QUOTE /\ c <> BACKSLASH /\ 0x1F < c) \/
  (exists e, escape_char c = [BACKSLASH; e] /\ e <> LETTER_u /\ simple_escape e = Some c) \/
  (escape_char c = u_escape c /\ c < 0x10000) \/
  (escape_char c = u_escape (high_half c) ++ u_escape (low_half c) /\ 0x10000 <= c).
Proof.
  intros Hc. unfold escape_char.
  destruct (N.eqb_spec c BACKSLASH) as [->|Hbs].
  { right; left. exists BACKSLASH. repeat split; discriminate. }
  destruct (N.eqb_spec c QUOTE) as [->|Hq].
  { right; left. exists QUOTE. repeat split; discriminate. }
  destruct ((SPACE <=? c) && (c <=? 126)) eqn:Hprint.
  { left. apply andb_true_iff in Hprint as [H1 _]. apply N.leb_le in H1.
    repeat split; try assumption. unfold SPACE in H1. lia. }
  destruct (N.eqb_spec c 8) as [->|_].
  { right; left. exists (ch "b"). repeat split; discriminate. }
  destruct (N.eqb_spec c 12) as [->|_].
  { right; left. exists (ch "f"). repeat split; discriminate. }
  destruct (N.eqb_spec c 10) as [->|_].
  { right; left. exists (ch "n"). repeat split; discriminate. }
  destruct (N.eqb_spec c 13) as [->|_].
  { right; left. exists (ch "r"). repeat split; discriminate. }
  destruct (N.eqb_spec c 9) as [->|_].
  { right; left. exists (ch "t"). repeat split; discriminate. }
  destruct (N.ltb_spec c 0x10000) as [Hlt|Hge].
  - right; right; left. now split.
  - right; right; right. now split.
Qed.

Lemma scanstring_eq l : scanstring l = scanstring_from scanstring l.
Proof. destruct l; reflexivity. Qed.

Lemma scanstring_literal c l :
  c <> QUOTE -> c <> BACKSLASH -> 0x1F < c ->
  scanstring (c :: l) = prepend c (scanstring l).
Proof.
  intros Hq Hbs Hctl. rewrite scanstring_eq. unfold scanstring_from.
  apply N.eqb_neq in Hq, Hbs. rewrite Hq, Hbs.
  apply N.leb_gt in Hctl. now rewrite Hctl.
Qed.

Lemma scanstring_simple e c l :
  e <> LETTER_u -> simple_escape e = Some c ->
  scanstring (BACKSLASH :: e :: l) = prepend c (scanstring l).
Proof.
  intros He Hs. rewrite scanstring_eq. unfold scanstring_from.
  change (BACKSLASH =? QUOTE) with false. change (BACKSLASH =? BACKSLASH) with true.
  cbv iota. apply N.eqb_neq in He. now rewrite He, Hs.
Qed.

(** The turn of the loop at a [\u] escape. *)
Lemma scanstring_u_escape h1 h2 h3 h4 l3 :
  scanstring (BACKSLASH :: LETTER_u :: h1 :: h2 :: h3 :: h4 :: l3)
  = match hex4_value h1 h2 h3 h4 with
    | None => None
    | Some u =>
        if is_high_surrogate u then
          match l3 with
          | b :: x :: l4 =>
              if (b =? BACKSLASH) && (x =? LETTER_u) then
                match l4 with
                | g1 :: g2 :: g3 :: g4 :: l5 =>
                    match hex4_value g1 g2 g3 g4 with
                    | None => None
                    | Some u2 =>
                        if is_low_surrogate u2
                        then prepend (join_surrogates u u2) (scanstring l5)
                        else prepend u (scanstring l3)
                    end
                | _ => None
                end
              else prepend u (scanstring l3)
          | _ => prepend u (scanstring l3)
          end
        else prepend u (scanstring l3)
    end.
Proof.
  rewrite scanstring_eq. unfold scanstring_from.
  change (BACKSLASH =? QUOTE) with false. change (BACKSLASH =? BACKSLASH) with true.
  change (LETTER_u =? LETTER_u) with true. cbv iota. reflexivity.
Qed.

Lemma scanstring_unicode c X :
  c < 0x10000 ->
  (is_high_surrogate c = true -> no_low_escape X) ->
  scanstring (u_escape c ++ X) = prepend c (scanstring X).
Proof.
  intros Hc Hnext. unfold u_escape, hex4. cbn [app].
  rewrite scanstring_u_escape, (hex4_roundtrip Hc).
  destruct (is_high_surrogate c) eqn:Hhigh; [|reflexivity].
  specialize (Hnext eq_refl).
  destruct X as [|b [|x l4]]; try reflexivity.
  cbn [no_low_escape] in Hnext.
  destruct ((b =? BACKSLASH) && (x =? LETTER_u)) eqn:Hbx; [|reflexivity].
  destruct (Hnext eq_refl) as (g1 & g2 & g3 & g4 & l5 & u2 & -> & Hu2 & Hlow).
  now rewrite Hu2, Hlow.
Qed.

Lemma scanstring_pair c X :
  0x10000 <= c -> c < 0x110000 ->
  scanstring (u_escape (high_half c) ++ u_escape (low_half c) ++ X)
  = prepend c (scanstring X).
Proof.
  intros Hlo Hhi.
  destruct (halves Hlo Hhi) as (Hh & Hl & Hhb & Hlb & Hjoin).
  unfold u_escape, hex4. cbn [app].
  rewrite scanstring_u_escape, (hex4_roundtrip Hhb), Hh.
  change (BACKSLASH =? BACKSLASH) with true. change (LETTER_u =? LETTER_u) with true.
  cbv iota beta delta [andb].
  now rewrite (hex4_roundtrip Hlb), Hl, Hjoin.
Qed.

Lemma high_not_low u : is_high_surrogate u = true -> is_low_surrogate u = false.
Proof.
  unfold is_high_surrogate, is_low_surrogate. intros H.
  apply andb_true_iff in H as [_ H]. apply N.leb_le in H.
  apply andb_false_iff. left. apply N.leb_gt. lia.
Qed.

(** After the escape of a high surrogate, the escape of what follows in
    the string is not mistaken for its low half. *)
Lemma no_low_escape_body s rest :
  str_ok s ->
  match s with c :: _ => is_low_surrogate c = false | [] => True end ->
  no_low_escape (escape_body s ++ QUOTE :: rest).
Proof.
  intros Hok Hhead. destruct s as [|c s].
  - cbn [escape_body flat_map app no_low_escape]. destruct rest; [exact I|].
    intros H. discriminate.
  - inversion Hok as [|? ? Hc _]; subst.
    unfold escape_body. simpl flat_map. rewrite <- app_assoc.
    set (Y := flat_map escape_char s ++ QUOTE :: rest).
    assert (HY : exists y Y', Y = y :: Y').
    { subst Y. destruct (flat_map escape_char s); simpl; eauto. }
    destruct HY as (y & Y' & HY). rewrite HY.
    destruct (escape_char_cases Hc) as
      [(-> & Hq & Hbs & _) | [(e & -> & He & _) | [(-> & Hlt) | (-> & Hge)]]].
    + cbn [app no_low_escape]. apply N.eqb_neq in Hbs. rewrite Hbs. discriminate.
    + cbn [app no_low_escape]. apply N.eqb_neq in He. rewrite He.
      rewrite andb_false_r. discriminate.
    + unfold u_escape, hex4. cbn [app no_low_escape].
      intros _. do 6 eexists. split; [reflexivity|]. split; [apply (hex4_roundtrip Hlt)|].
      exact Hhead.
    + destruct (halves Hge Hc) as (Hh & _ & Hhb & _).
      unfold u_escape at 1. unfold hex4. cbn [app no_low_escape].
      intros _. do 6 eexists. split; [reflexivity|].
      split; [apply (hex4_roundtrip Hhb)|]. now apply high_not_low.
Qed.

(** What [encode_basestring_ascii] writes between the quotes is read
    back by [scanstring], provided no high surrogate of the string is
    followed by a low one. *)
Lemma scanstring_escape_body s rest :
  str_ok s -> has_surrogate_pair s = false ->
  scanstring (escape_body s ++ QUOTE :: rest) = Some (s, rest).
Proof.
  induction s as [|c s IH]; intros Hok Hpair.
  - reflexivity.
  - inversion Hok as [|? ? Hc Hok']; subst.
    assert (Hpair' : has_surrogate_pair s = false).
    { destruct s as [|c' s']; [reflexivity|]. simpl in Hpair.
      now apply orb_false_iff in Hpair. }
    assert (Hnext : is_high_surrogate c = true ->
                    match s with c' :: _ => is_low_surrogate c' = false | [] => True end).
    { intros Hh. destruct s as [|c' s']; [exact I|]. simpl in Hpair.
      apply orb_false_iff in Hpair as [Hpair _]. now rewrite Hh in Hpair. }
    specialize (IH Hok' Hpair').
    unfold escape_body in *. simpl flat_map. rewrite <- app_assoc.
    destruct (escape_char_cases Hc) as
      [(-> & Hq & Hbs & Hctl) | [(e & -> & He & Hs) | [(-> & Hlt) | (-> & Hge)]]].
    + simpl app. rewrite scanstring_literal by assumption. now rewrite IH.
    + simpl app. rewrite (scanstring_simple _ He Hs). now rewrite IH.
    + rewrite scanstring_unicode; [now rewrite IH|assumption|].
      intros Hh. apply no_low_escape_body; [assumption | exact (Hnext Hh)].
    + rewrite <- app_assoc. rewrite scanstring_pair by assumption. now rewrite IH.
Qed.

Lemma encode_basestring_ascii_app s rest :
  encode_basestring_ascii s ++ rest = QUOTE :: escape_body s ++ QUOTE :: rest.
Proof. unfold encode_basestring_ascii. simpl. now rewrite <- app_assoc. Qed.

Lemma scan_once_encoded_string fuel s rest :
  str_ok s -> has_surrogate_pair s = false ->
  scan_once (S fuel) (encode_basestring_ascii s ++ rest) = Some (PyStr s, rest).
Proof.
  intros Hok Hpair. rewrite encode_basestring_ascii_app.
  cbn -[scanstring]. now rewrite scanstring_escape_body.
Qed.

(** One turn of the loop of [_parse_object]. *)
Lemma parse_object_items_step fuel L1 acc key l3 v l4 :
  scanstring L1 = Some (key, COLON :: l3) ->
  scan_once fuel (skip_whitespace l3) = Some (v, l4) ->
  parse_object_items (S fuel) (QUOTE :: L1) acc
  = match skip_whitespace l4 with
    | d :: l5 =>
        if d =? RBRACE then Some (PyDict (dict_set acc key v), l5)
        else if d =? COMMA
        then parse_object_items fuel (skip_whitespace l5) (dict_set acc key v)
        else None
    | [] => None
    end.
Proof.
  intros Hkey Hval.
  cbn -[scanstring skip_whitespace scan_once N.eqb].
  rewrite Hkey. cbn -[scanstring scan_once N.eqb skip_whitespace parse_object_items].
  change (skip_whitespace (COLON :: l3)) with (COLON :: l3).
  cbn -[scanstring scan_once skip_whitespace parse_object_items dict_set RBRACE COMMA N.eqb].
  change (COLON =? COLON) with true. cbv iota.
  now rewrite Hval.
Qed.

Lemma encode_item_shape kv T :
  encode_item kv ++ T
  = QUOTE :: escape_body (fst kv) ++ QUOTE :: COLON :: SPACE ::
    (encode_basestring_ascii (snd kv) ++ T).
Proof.
  unfold encode_item, key_separator. rewrite <- !app_assoc.
  rewrite encode_basestring_ascii_app. reflexivity.
Qed.

(** The loop of the parser reads the items the encoder has written. *)
Lemma parse_object_items_encoded ds : forall kv acc fuel rest,
  (List.length ds + 2 <= fuel)%nat ->
  Forall entry_ok (kv :: ds) -> Forall pair_free (kv :: ds) ->
  NoDup (keys acc ++ keys (kv :: ds)) ->
  parse_object_items fuel
    (encode_item kv ++ iterencode_items false ds ++ NEWLINE :: RBRACE :: rest) acc
  = Some (PyDict (acc ++ map to_value (kv :: ds)), rest).
Proof.
  induction ds as [|kv' ds IH]; intros [k v] acc fuel rest Hfuel Hok Hfree Hnd.
  all: destruct fuel as [|[|fuel]]; simpl in Hfuel; try lia.
  all: inversion Hok as [|? ? [Hk Hv] Hok']; subst.
  all: inversion Hfree as [|? ? [Hpk Hpv] Hfree']; subst; simpl in Hk, Hv, Hpk, Hpv.
  all: assert (Hnew : ~ In k (keys acc))
    by (intros Hin; apply NoDup_remove_2 in Hnd; apply Hnd; apply in_or_app; now left).
  all: rewrite encode_item_shape; simpl fst; simpl snd.
  - erewrite parse_object_items_step;
      [|apply scanstring_escape_body; assumption
       |apply (scan_once_encoded_string fuel); assumption].
    simpl. now rewrite dict_set_new.
  - erewrite parse_object_items_step;
      [|apply scanstring_escape_body; assumption
       |apply (scan_once_encoded_string fuel); assumption].
    cbn [iterencode_items]. unfold item_separator, newline_indent.
    rewrite <- !app_assoc. cbn [app].
    change (skip_whitespace (COMMA :: ?x)) with (COMMA :: x).
    cbn -[encode_item iterencode_items parse_object_items skip_whitespace dict_set].
    rewrite dict_set_new by assumption.
    replace (skip_whitespace (NEWLINE :: SPACE :: SPACE ::
               encode_item kv' ++ iterencode_items false ds ++ NEWLINE :: RBRACE :: rest))
      with (encode_item kv' ++ iterencode_items false ds ++ NEWLINE :: RBRACE :: rest)
      by (rewrite (encode_item_shape kv'); reflexivity).
    rewrite IH; try assumption; try lia.
    + simpl. now rewrite <- app_assoc.
    + unfold keys in *. rewrite map_app. simpl in *. rewrite <- app_assoc. simpl.
      apply NoDup_remove in Hnd as [Hnd Hnin].
      replace (map fst acc ++ k :: fst kv' :: map fst ds)
        with (map fst acc ++ k :: (fst kv' :: map fst ds)) by reflexivity.
      apply NoDup_Add with (a := k) (l := map fst acc ++ fst kv' :: map fst ds).
      * apply Add_app.
      * constructor; assumption.
Qed.

Lemma iterencode_items_length first ds :
  (List.length ds <= List.length (iterencode_items first ds))%nat.
Proof.
  revert first. induction ds as [|kv ds IH]; intros first; cbn [iterencode_items List.length];
    [lia|].
  rewrite !length_app. specialize (IH false).
  unfold encode_item. rewrite !length_app. unfold encode_basestring_ascii.
  cbn [List.length]. lia.
Qed.

(** [json.load] reads back what [json.dump] has written. *)
Lemma json_loads_dumps d :
  map_ok d -> no_surrogate_pairs d -> json_loads (json_dumps d) = Some (dict_value d).
Proof.
  intros [Hnd Hok] Hfree. destruct d as [|kv ds]; [reflexivity|].
  unfold json_dumps, json_loads, newline_indent.
  cbn [app iterencode_items].
  change (LBRACE =? BOM) with false. cbv iota.
  change (skip_whitespace (LBRACE :: ?x)) with (LBRACE :: x).
  cbn -[parse_object_items encode_item iterencode_items skip_whitespace].
  rewrite <- app_assoc.
  replace (skip_whitespace (NEWLINE :: SPACE :: SPACE ::
             encode_item kv ++ iterencode_items false ds ++ [NEWLINE; RBRACE]))
    with (encode_item kv ++ iterencode_items false ds ++ [NEWLINE; RBRACE])
    by (rewrite (encode_item_shape kv); reflexivity).
  rewrite (encode_item_shape kv) at 1.
  change (QUOTE =? RBRACE) with false. cbv iota.
  rewrite <- (encode_item_shape kv).
  rewrite (@parse_object_items_encoded ds kv [] _ []); try assumption.
  - reflexivity.
  - rewrite !length_app. pose proof (iterencode_items_length false ds). lia.
Qed.

(** *** The dictionaries the decoder builds hold no key twice *)

Lemma parse_object_items_ok fuel : forall l acc v rest,
  dict_ok acc -> parse_object_items fuel l acc = Some (v, rest) ->
  exists items, v = PyDict items /\ dict_ok items.
Proof.
  induction fuel as [|fuel IH]; intros l acc v rest Hacc H; [discriminate|].
  cbn -[scanstring skip_whitespace scan_once N.eqb] in H.
  destruct l as [|q l1]; [discriminate|].
  destruct (q =? QUOTE); [|discriminate].
  destruct (scanstring l1) as [[key l2]|]; [|discriminate].
  destruct (skip_whitespace l2) as [|colon l3]; [discriminate|].
  destruct (colon =? COLON); [|discriminate].
  destruct (scan_once fuel (skip_whitespace l3)) as [[v' l4]|]; [|discriminate].
  destruct (skip_whitespace l4) as [|d l5]; [discriminate|].
  destruct (d =? RBRACE).
  - injection H as <- <-. eexists. split; [reflexivity|]. now apply dict_ok_set.
  - destruct (d =? COMMA); [|discriminate].
    eapply IH; [|exact H]. now apply dict_ok_set.
Qed.

Lemma parse_array_items_list fuel : forall l acc v rest,
  parse_array_items fuel l acc = Some (v, rest) -> exists items, v = PyList items.
Proof.
  induction fuel as [|fuel IH]; intros l acc v rest H; [discriminate|].
  cbn -[skip_whitespace scan_once N.eqb] in H.
  destruct (scan_once fuel l) as [[v' l1]|]; [|discriminate].
  destruct (skip_whitespace l1) as [|d l2]; [discriminate|].
  destruct (d =? RBRACKET).
  - injection H as <- <-. now eexists.
  - destruct (d =? COMMA); [|discriminate]. eapply IH. exact H.
Qed.

Lemma match_number_not_dict l items rest : match_number l <> Some (PyDict items, rest).
Proof.
  unfold match_number.
  destruct (match l with
            | [] => (false, l)
            | c :: l' => if c =? ch "-" then (true, l') else (false, l)
            end) as [neg l0].
  destruct (match_integer l0) as [[int_digits l1]|]; [|discriminate].
  destruct (match_fraction l1) as [frac l2].
  destruct (match_exponent l2) as [exp l3].
  destruct frac, exp; discriminate.
Qed.

Lemma scan_atom_not_dict l items rest : scan_atom l <> Some (PyDict items, rest).
Proof.
  unfold scan_atom.
  repeat match goal with
         | |- context [strip_prefix ?p l] => destruct (strip_prefix p l); [discriminate|]
         end.
  apply match_number_not_dict.
Qed.

Lemma scan_once_dict_ok fuel l items rest :
  scan_once fuel l = Some (PyDict items, rest) -> dict_ok items.
Proof.
  destruct fuel as [|fuel]; [discriminate|]. intros H.
  cbn -[scanstring skip_whitespace scan_atom parse_object_items parse_array_items N.eqb] in H.
  destruct l as [|c l1]; [discriminate|].
  destruct (c =? QUOTE).
  { destruct (scanstring l1) as [[s r]|]; discriminate. }
  destruct (c =? LBRACE).
  { destruct (skip_whitespace l1) as [|c' r]; [discriminate|].
    destruct (c' =? RBRACE).
    - injection H as <- <-. constructor.
    - apply parse_object_items_ok in H; [|constructor].
      destruct H as (items' & Heq & Hok). now injection Heq as ->. }
  destruct (c =? LBRACKET).
  { destruct (skip_whitespace l1) as [|c' r]; [discriminate|].
    destruct (c' =? RBRACKET); [discriminate|].
    apply parse_array_items_list in H. destruct H as (items' & Heq). discriminate. }
  now apply scan_atom_not_dict in H.
Qed.

Lemma json_loads_dict_ok s items : json_loads s = Some (PyDict items) -> dict_ok items.
Proof.
  unfold json_loads. destruct s as [|c s]; [discriminate|].
  destruct (c =? BOM); [discriminate|].
  destruct (scan_once _ _) as [[v rest]|] eqn:E; [|discriminate].
  destruct (skip_whitespace rest); [|discriminate].
  intros H. injection H as ->. eapply scan_once_dict_ok. exact E.
Qed.

(** *** The fuel of [scan_once] is never used up

    Every function of the decoder returns a text shorter than the one
    it was given, so that a fuel above the length of the text does not
    change the result. *)

Lemma skip_whitespace_le l : (List.length (skip_whitespace l) <= List.length l)%nat.
Proof.
  induction l as [|c l IH]; simpl; [lia|].
  destruct (is_whitespace c); simpl; lia.
Qed.

Lemma prepend_some c r s rest :
  prepend c r = Some (s, rest) -> exists s', r = Some (s', rest).
Proof.
  destruct r as [[s' rest']|]; simpl; [|discriminate].
  intros H. injection H as _ <-. now exists s'.
Qed.

Lemma scanstring_shorter n : forall l s rest,
  (List.length l <= n)%nat -> scanstring l = Some (s, rest) ->
  (List.length rest < List.length l)%nat.
Proof.
  induction n as [|n IH]; intros l s rest Hn H.
  - destruct l; [|simpl in Hn; lia]. rewrite scanstring_eq in H. discriminate.
  - rewrite scanstring_eq in H. unfold scanstring_from in H.
    destruct l as [|c l1]; [discriminate|]. simpl in Hn.
    assert (Hleaf : forall u l', (List.length l' <= n)%nat ->
                      prepend u (scanstring l') = Some (s, rest) ->
                      (List.length rest < List.length l')%nat).
    { intros u l' Hl' Hp. apply prepend_some in Hp as [s' Hp]. now apply (IH l' s' rest). }
    destruct (c =? QUOTE); [injection H as _ <-; simpl; lia|].
    destruct (c =? BACKSLASH).
    + destruct l1 as [|e l2]; [discriminate|].
      destruct (e =? LETTER_u).
      * destruct l2 as [|h1 [|h2 [|h3 [|h4 l3]]]]; try discriminate.
        destruct (hex4_value h1 h2 h3 h4) as [u|]; [|discriminate].
        simpl in Hn.
        destruct (is_high_surrogate u).
        -- destruct l3 as [|b [|x l4]];
             try (apply Hleaf in H; simpl in *; lia).
           destruct ((b =? BACKSLASH) && (x =? LETTER_u)).
           ++ destruct l4 as [|g1 [|g2 [|g3 [|g4 l5]]]]; try discriminate.
              destruct (hex4_value g1 g2 g3 g4) as [u2|]; [|discriminate].
              destruct (is_low_surrogate u2); apply Hleaf in H; simpl in *; lia.
           ++ apply Hleaf in H; simpl in *; lia.
        -- apply Hleaf in H; simpl in *; lia.
      * destruct (simple_escape e); [|discriminate].
        apply Hleaf in H; simpl in *; lia.
    + destruct (c <=? 0x1F); [discriminate|].
      apply Hleaf in H; simpl in *; lia.
Qed.

Lemma span_digits_length l :
  List.length l = (List.length (fst (span_digits l)) + List.length (snd (span_digits l)))%nat.
Proof.
  induction l as [|c l IH]; simpl; [reflexivity|].
  destruct (is_digit c); [|reflexivity].
  destruct (span_digits l) as [ds rest]. simpl in *. lia.
Qed.

Lemma strip_prefix_length p : forall l rest,
  strip_prefix p l = Some rest -> List.length l = (List.length p + List.length rest)%nat.
Proof.
  induction p as [|a p IH]; intros l rest H; simpl in H.
  - now injection H as <-.
  - destruct l as [|b l]; [discriminate|].
    destruct (a =? b); [|discriminate]. simpl. f_equal. now apply IH.
Qed.

Lemma match_integer_shorter l ds rest :
  match_integer l = Some (ds, rest) -> (List.length rest < List.length l)%nat.
Proof.
  unfold match_integer. destruct l as [|c l]; [discriminate|].
  destruct (c =? ch "0"); [intros H; injection H as _ <-; simpl; lia|].
  destruct (is_digit c); [|discriminate].
  pose proof (span_digits_length l) as Hlen.
  destruct (span_digits l) as [ds' rest']. intros H. injection H as _ <-.
  simpl in *. lia.
Qed.

Lemma match_fraction_le l : (List.length (snd (match_fraction l)) <= List.length l)%nat.
Proof.
  unfold match_fraction. destruct l as [|dot [|d l]]; try (simpl; lia).
  destruct ((dot =? ch ".") && is_digit d); [|simpl; lia].
  pose proof (span_digits_length l) as Hlen.
  destruct (span_digits l) as [ds rest]. simpl in *. lia.
Qed.

Lemma match_exponent_le l : (List.length (snd (match_exponent l)) <= List.length l)%nat.
Proof.
  unfold match_exponent. destruct l as [|e l1]; [simpl; lia|].
  destruct ((e =? ch "e") || (e =? ch "E")); [|simpl; lia].
  set (split := match l1 with
                | [] => ([], l1)
                | s :: l1' => if (s =? ch "-") || (s =? ch "+") then ([s], l1') else ([], l1)
                end).
  assert (Hsplit : (List.length (snd split) <= List.length l1)%nat).
  { subst split. destruct l1 as [|s l1']; [simpl; lia|].
    destruct ((s =? ch "-") || (s =? ch "+")); simpl; lia. }
  destruct split as [sign l2]. simpl in Hsplit.
  pose proof (span_digits_length l2) as Hlen.
  destruct (span_digits l2) as [[|d ds] rest]; simpl in *; lia.
Qed.

Lemma match_number_shorter l v rest :
  match_number l = Some (v, rest) -> (List.length rest < List.length l)%nat.
Proof.
  unfold match_number.
  set (start := match l with
                | [] => (false, l)
                | c :: l' => if c =? ch "-" then (true, l') else (false, l)
                end).
  assert (Hstart : (List.length (snd start) <= List.length l)%nat).
  { subst start. destruct l as [|c l']; [simpl; lia|].
    destruct (c =? ch "-"); simpl; lia. }
  destruct start as [neg l0]. simpl in Hstart.
  destruct (match_integer l0) as [[int_digits l1]|] eqn:Ei; [|discriminate].
  apply match_integer_shorter in Ei.
  pose proof (match_fraction_le l1) as Hf. destruct (match_fraction l1) as [frac l2].
  pose proof (match_exponent_le l2) as He. destruct (match_exponent l2) as [exp l3].
  simpl in Hf, He.
  destruct frac, exp; intros H; injection H as _ <-; lia.
Qed.

Lemma scan_atom_shorter l v rest :
  scan_atom l = Some (v, rest) -> (List.length rest < List.length l)%nat.
Proof.
  unfold scan_atom.
  repeat match goal with
         | |- context [strip_prefix ?p l] =>
             let E := fresh "E" in
             destruct (strip_prefix p l) eqn:E;
             [apply strip_prefix_length in E; intros H; injection H as _ <-;
              simpl in E; lia|]
         end.
  apply match_number_shorter.
Qed.

Lemma scan_shorter fuel : forall l v rest,
  (scan_once fuel l = Some (v, rest) -> (List.length rest < List.length l)%nat) /\
  (forall acc, parse_object_items fuel l acc = Some (v, rest) ->
               (List.length rest < List.length l)%nat) /\
  (forall acc, parse_array_items fuel l acc = Some (v, rest) ->
               (List.length rest < List.length l)%nat).
Proof.
  induction fuel as [|fuel IH]; intros l v rest.
  { repeat split; intros; discriminate. }
  split; [|split].
  - intros H.
    cbn -[scanstring skip_whitespace scan_atom parse_object_items parse_array_items N.eqb] in H.
    destruct l as [|c l1]; [discriminate|].
    destruct (c =? QUOTE).
    { destruct (scanstring l1) as [[s r]|] eqn:Es; [|discriminate].
      injection H as _ <-. apply (@scanstring_shorter (List.length l1)) in Es; simpl; lia. }
    pose proof (skip_whitespace_le l1) as Hws.
    destruct (c =? LBRACE).
    { destruct (skip_whitespace l1) as [|c' r]; [discriminate|].
      destruct (c' =? RBRACE); [injection H as _ <-; simpl in *; lia|].
      apply IH in H. simpl in *. lia. }
    destruct (c =? LBRACKET).
    { destruct (skip_whitespace l1) as [|c' r]; [discriminate|].
      destruct (c' =? RBRACKET); [injection H as _ <-; simpl in *; lia|].
      apply IH in H. simpl in *. lia. }
    now apply scan_atom_shorter in H.
  - intros acc H.
    cbn -[scanstring skip_whitespace scan_once N.eqb] in H.
    destruct l as [|q l1]; [discriminate|].
    destruct (q =? QUOTE); [|discriminate].
    destruct (scanstring l1) as [[key l2]|] eqn:Es; [|discriminate].
    apply (@scanstring_shorter (List.length l1)) in Es; [|lia].
    pose proof (skip_whitespace_le l2) as Hw2.
    destruct (skip_whitespace l2) as [|colon l3]; [discriminate|].
    destruct (colon =? COLON); [|discriminate].
    pose proof (skip_whitespace_le l3) as Hw3.
    destruct (scan_once fuel (skip_whitespace l3)) as [[v' l4]|] eqn:Ev; [|discriminate].
    apply IH in Ev.
    pose proof (skip_whitespace_le l4) as Hw4.
    destruct (skip_whitespace l4) as [|d l5]; [discriminate|].
    destruct (d =? RBRACE); [injection H as _ <-; simpl in *; lia|].
    destruct (d =? COMMA); [|discriminate].
    apply IH in H. pose proof (skip_whitespace_le l5). simpl in *. lia.
  - intros acc H.
    cbn -[skip_whitespace scan_once N.eqb] in H.
    destruct (scan_once fuel l) as [[v' l1]|] eqn:Ev; [|discriminate].
    apply IH in Ev.
    pose proof (skip_whitespace_le l1) as Hw1.
    destruct (skip_whitespace l1) as [|d l2]; [discriminate|].
    destruct (d =? RBRACKET); [injection H as _ <-; simpl in *; lia|].
    destruct (d =? COMMA); [|discriminate].
    apply IH in H. pose proof (skip_whitespace_le l2). simpl in *. lia.
Qed.

Lemma fuel_enough fuel : forall fuel' l,
  ((2 * List.length l < fuel)%nat -> (2 * List.length l < fuel')%nat ->
   scan_once fuel l = scan_once fuel' l) /\
  ((2 * List.length l + 1 < fuel)%nat -> (2 * List.length l + 1 < fuel')%nat ->
   forall acc, parse_object_items fuel l acc = parse_object_items fuel' l acc) /\
  ((2 * List.length l + 1 < fuel)%nat -> (2 * List.length l + 1 < fuel')%nat ->
   forall acc, parse_array_items fuel l acc = parse_array_items fuel' l acc).
Proof.
  induction fuel as [|fuel IH]; intros fuel' l.
  { repeat split; intros; lia. }
  destruct fuel' as [|fuel'].
  { repeat split; intros; lia. }
  split; [|split]; intros H1 H2.
  - cbn -[scanstring skip_whitespace scan_atom parse_object_items parse_array_items N.eqb].
    destruct l as [|c l1]; [reflexivity|]. simpl in H1, H2.
    destruct (c =? QUOTE); [reflexivity|].
    pose proof (skip_whitespace_le l1) as Hws.
    destruct (c =? LBRACE).
    { destruct (skip_whitespace l1) as [|c' r]; [reflexivity|].
      destruct (c' =? RBRACE); [reflexivity|]. apply IH; simpl in *; lia. }
    destruct (c =? LBRACKET); [|reflexivity].
    destruct (skip_whitespace l1) as [|c' r]; [reflexivity|].
    destruct (c' =? RBRACKET); [reflexivity|]. apply IH; simpl in *; lia.
  - intros acc.
    cbn -[scanstring skip_whitespace scan_once N.eqb].
    destruct l as [|q l1]; [reflexivity|]. simpl in H1, H2.
    destruct (q =? QUOTE); [|reflexivity].
    destruct (scanstring l1) as [[key l2]|] eqn:Es; [|reflexivity].
    apply (@scanstring_shorter (List.length l1)) in Es; [|lia].
    pose proof (skip_whitespace_le l2) as Hw2.
    destruct (skip_whitespace l2) as [|colon l3]; [reflexivity|].
    destruct (colon =? COLON); [|reflexivity].
    pose proof (skip_whitespace_le l3) as Hw3.
    assert (Hsame : scan_once fuel (skip_whitespace l3) = scan_once fuel' (skip_whitespace l3))
      by (apply IH; simpl in *; lia).
    rewrite Hsame.
    destruct (scan_once fuel' (skip_whitespace l3)) as [[v' l4]|] eqn:Ev; [|reflexivity].
    apply scan_shorter in Ev.
    pose proof (skip_whitespace_le l4) as Hw4.
    destruct (skip_whitespace l4) as [|d l5]; [reflexivity|].
    destruct (d =? RBRACE); [reflexivity|].
    destruct (d =? COMMA); [|reflexivity].
    pose proof (skip_whitespace_le l5). apply IH; simpl in *; lia.
  - intros acc.
    cbn -[skip_whitespace scan_once N.eqb].
    assert (Hsame : scan_once fuel l = scan_once fuel' l) by (apply IH; lia).
    rewrite Hsame.
    destruct (scan_once fuel' l) as [[v' l1]|] eqn:Ev; [|reflexivity].
    apply scan_shorter in Ev.
    pose proof (skip_whitespace_le l1) as Hw1.
    destruct (skip_whitespace l1) as [|d l2]; [reflexivity|].
    destruct (d =? RBRACKET); [reflexivity|].
    destruct (d =? COMMA); [|reflexivity].
    pose proof (skip_whitespace_le l2). apply IH; simpl in *; lia.
Qed.

(** More fuel than [json_loads] gives would not change its result. *)
Lemma json_loads_fuel s fuel :
  (2 * List.length s < fuel)%nat ->
  scan_once fuel (skip_whitespace s) = scan_once (S (2 * List.length s)) (skip_whitespace s).
Proof.
  intros H. pose proof (skip_whitespace_le s). apply fuel_enough; lia.
Qed.

End JsonFacts.

(* ===================================================================== *)
(** ** Facts on the configuration store                                   *)
(* ===================================================================== *)

Module StoreFacts.
Import JsonFacts.

Lemma strings_only_to_value d : strings_only (map to_value d) = Some d.
Proof.
  induction d as [|[k v] d IH]; simpl; [reflexivity|]. now rewrite IH.
Qed.

Lemma as_key_map_dict_value d : as_key_map (dict_value d) = Some d.
Proof. apply strings_only_to_value. Qed.

Lemma strings_only_keys items d : strings_only items = Some d -> keys d = keys items.
Proof.
  revert d. induction items as [|[k v] items IH]; simpl; intros d H.
  - now injection H as <-.
  - destruct v; try discriminate.
    destruct (strings_only items) as [d'|]; [|discriminate].
    injection H as <-. simpl. f_equal. now apply IH.
Qed.

Lemma load_fn_keys_available w f wf :
  fs w = DirAvailable f wf -> load_fn_keys w = (w, Val (loaded_value f)).
Proof.
  intros H.
  unfold load_fn_keys, get_config_path, os_makedirs, os_path_exists, try_except,
    read_text, json_load, bind, get_fs, ret, raise.
  rewrite H. destruct f as [| | |text]; simpl; rewrite ?H; try reflexivity.
  simpl. now destruct (json_loads text).
Qed.

Lemma load_fn_keys_unavailable w :
  fs w = DirUnavailable -> load_fn_keys w = (w, Raise OSError).
Proof.
  intros H.
  unfold load_fn_keys, get_config_path, os_makedirs, bind, get_fs, raise.
  now rewrite H.
Qed.

(** The three ways [save_fn_keys] ends. *)
Lemma save_fn_keys_cases d w :
  match fs w with
  | DirAvailable _ NoFault =>
      save_fn_keys d w
      = (with_fs w (DirAvailable (Content (json_dumps d)) NoFault), Val tt)
  | DirAvailable _ (WriteCut n) =>
      save_fn_keys d w
      = (with_fs w (DirAvailable (Content (firstn n (json_dumps d))) (WriteCut n)),
         Raise OSError)
  | DirAvailable _ OpenDenied | DirUnavailable =>
      save_fn_keys d w = (w, Raise OSError)
  end.
Proof.
  unfold save_fn_keys, get_config_path, os_makedirs, write_text, bind, get_fs, set_fs,
    ret, raise, with_fs.
  destruct (fs w) as [|f [| |n]] eqn:H; simpl; rewrite ?H; reflexivity.
Qed.

Lemma save_fn_keys_val d w w' :
  save_fn_keys d w = (w', Val tt) ->
  w' = with_fs w (DirAvailable (Content (json_dumps d)) NoFault).
Proof.
  intros H. pose proof (save_fn_keys_cases d w) as Hc.
  destruct (fs w) as [|f [| |n]]; rewrite Hc in H; try discriminate.
  now injection H as <-.
Qed.

Lemma default_keys_ok : dict_ok default_keys.
Proof.
  unfold dict_ok. simpl.
  repeat (constructor; [simpl; intuition discriminate|]). constructor.
Qed.

(** A map of strings that [load_fn_keys] returns holds no key twice. *)
Lemma loaded_map_ok f d : as_key_map (loaded_value f) = Some d -> dict_ok d.
Proof.
  assert (Hdflt : as_key_map (dict_value default_keys) = Some d -> dict_ok d).
  { rewrite as_key_map_dict_value. intros H. injection H as <-. apply default_keys_ok. }
  destruct f as [| | |text]; try exact Hdflt.
  simpl. destruct (json_loads text) as [v|] eqn:E; [|exact Hdflt].
  destruct v; try discriminate. simpl. intros H.
  unfold dict_ok. rewrite (strings_only_keys _ H).
  now apply json_loads_dict_ok in E.
Qed.


End StoreFacts.

(* ===================================================================== *)
(** ** Facts on the dialog and the window                                 *)
(* ===================================================================== *)

Module GuiFacts.
Import StoreFacts.
Local Open Scope py_scope.

(** *** Lists *)

Lemma list_update_middle {A} (l l' : list A) (x y : A) :
  list_update (l ++ x :: l') (List.length l) y = l ++ y :: l'.
Proof. induction l as [|a l IH]; simpl; [reflexivity|]. now rewrite IH. Qed.

Lemma list_update_length {A} (l : list A) i x :
  List.length (list_update l i x) = List.length l.
Proof.
  revert i. induction l as [|a l IH]; intros [|i]; simpl; try reflexivity.
  now rewrite IH.
Qed.

Lemma map_nth_seq {A} (l : list A) (dflt : A) : forall l',
  map (fun i => nth i (l ++ l') dflt) (seq 0 (List.length l)) = l.
Proof.
  induction l as [|a l IH] using rev_ind; intros l'; [reflexivity|].
  rewrite length_app. cbn [List.length]. rewrite Nat.add_1_r, seq_S, map_app.
  rewrite <- app_assoc. cbn [app map Nat.add]. rewrite IH. f_equal.
  now rewrite nth_middle.
Qed.

Lemma combine_keys_values {V} (d : dict V) : combine (keys d) (map snd d) = d.
Proof. induction d as [|[k v] d IH]; simpl; [reflexivity|]. now rewrite IH. Qed.

Lemma keys_combine {V} (ks : list pystr) (vs : list V) :
  List.length ks = List.length vs -> keys (combine ks vs) = ks.
Proof.
  revert vs. induction ks as [|k ks IH]; intros [|v vs]; simpl; intros H;
    try reflexivity; try discriminate.
  f_equal. apply IH. now injection H.
Qed.

(** *** The user's edits on a map *)

Lemma edit_one_keys m kt : keys (edit_one m kt) = keys m.
Proof.
  unfold edit_one. destruct (dict_get m (fst kt)) eqn:E; [|reflexivity].
  apply keys_dict_set_present.
  destruct (in_dec (list_eq_dec N.eq_dec) (fst kt) (keys m)) as [H|H]; [assumption|].
  now rewrite dict_get_absent in E.
Qed.

Lemma apply_edits_keys typed : forall m, keys (apply_edits typed m) = keys m.
Proof.
  induction typed as [|kt typed IH]; intros m; [reflexivity|].
  unfold apply_edits in *. simpl. now rewrite IH, edit_one_keys.
Qed.

Lemma edit_one_other m kt k : k <> fst kt -> dict_get (edit_one m kt) k = dict_get m k.
Proof.
  intros H. unfold edit_one. destruct (dict_get m (fst kt)); [|reflexivity].
  now apply dict_get_other.
Qed.

(** A key that was not typed into keeps its description. *)
Lemma apply_edits_untouched typed : forall m k,
  ~ In k (map fst typed) -> dict_get (apply_edits typed m) k = dict_get m k.
Proof.
  induction typed as [|kt typed IH]; intros m k H; [reflexivity|].
  unfold apply_edits in *. simpl. rewrite IH by (intros Hin; apply H; now right).
  apply edit_one_other. intros ->. apply H. now left.
Qed.

(** One edit of a key of the map gives that key the text typed. *)
Lemma apply_edits_single m k t :
  In k (keys m) -> dict_get (apply_edits [(k, t)] m) k = Some t.
Proof.
  intros H. unfold apply_edits, edit_one. simpl.
  destruct (dict_get_present m k H) as [v ->]. apply dict_get_same.
Qed.

(** The same edit seen on the list of the fields. *)
Lemma type_step m : forall W k t,
  match dict_get (combine (keys m) (seq (List.length W) (List.length m))) k with
  | Some e => list_update (W ++ map snd m) e t
  | None => W ++ map snd m
  end = W ++ map snd (edit_one m (k, t)).
Proof.
  unfold edit_one. simpl.
  induction m as [|[k0 v0] m IH]; intros W k t; simpl; [reflexivity|].
  destruct (str_eqb k0 k) eqn:E.
  - simpl. apply list_update_middle.
  - specialize (IH (W ++ [v0]) k t). rewrite length_app in IH. simpl in IH.
    rewrite Nat.add_1_r in IH. rewrite <- !app_assoc in IH. simpl in IH.
    rewrite IH. destruct (dict_get m k); reflexivity.
Qed.

Lemma type_edits_fields typed : forall m W,
  type_edits (combine (keys m) (seq (List.length W) (List.length m))) typed (W ++ map snd m)
  = W ++ map snd (apply_edits typed m).
Proof.
  induction typed as [|[k t] typed IH]; intros m W; [reflexivity|].
  unfold type_edits, apply_edits in *. simpl.
  rewrite type_step.
  assert (Hk : keys (edit_one m (k, t)) = keys m) by apply edit_one_keys.
  assert (Hl : List.length (edit_one m (k, t)) = List.length m).
  { apply (f_equal (@List.length _)) in Hk. unfold keys in Hk. now rewrite !length_map in Hk. }
  rewrite <- Hk, <- Hl. apply IH.
Qed.

(** *** The loops of the two classes *)

Lemma with_widgets_same w : with_widgets w (widgets w) = w.
Proof. now destruct w. Qed.

(** The fields of the dialog: one [QLineEdit] per item, holding its
    description. *)
Lemma edits_loop items : forall acc w,
  NoDup (keys acc ++ keys items) ->
  for_each items
    (fun edits kv => edit <- new_widget (snd kv) ;; ret (dict_set edits (fst kv) edit))
    acc w
  = (with_widgets w (widgets w ++ map snd items),
     Val (acc ++ combine (keys items) (seq (List.length (widgets w)) (List.length items)))).
Proof.
  induction items as [|[k v] items IH]; intros acc w Hnd.
  - simpl. unfold ret. now rewrite !app_nil_r, with_widgets_same.
  - assert (Hnew : ~ In k (keys acc)).
    { intros Hin. apply NoDup_remove_2 in Hnd. apply Hnd. apply in_or_app. now left. }
    cbn [for_each]. unfold bind at 1. unfold bind at 1. unfold new_widget at 1.
    unfold ret at 1. cbn [fst snd].
    rewrite IH.
    + unfold with_widgets. cbn [fs dicts widgets window].
      rewrite dict_set_new by assumption.
      rewrite length_app. cbn [List.length map keys combine seq].
      rewrite Nat.add_1_r. rewrite <- !app_assoc. reflexivity.
    + cbn [dicts widgets]. rewrite dict_set_new by assumption.
      unfold keys in *. rewrite map_app. cbn [map fst] in *. rewrite <- app_assoc.
      exact Hnd.
Qed.

(** The user's typing acts on the widgets only. *)
Lemma typing_loop dlg typed : forall w,
  for_each typed (fun _ kt => type_into dlg kt) tt w
  = (with_widgets w (type_edits (sd_edits dlg) typed (widgets w)), Val tt).
Proof.
  induction typed as [|kt typed IH]; intros w.
  - simpl. unfold ret. now rewrite with_widgets_same.
  - cbn [for_each]. unfold bind at 1. unfold type_into at 1.
    unfold type_edits. cbn [fold_left].
    destruct (dict_get (sd_edits dlg) (fst kt)) as [e|].
    + unfold setText. rewrite IH. reflexivity.
    + unfold ret at 1. rewrite IH. reflexivity.
Qed.

(** [get_updated_keys] reads the fields back, in the order of the keys. *)
Lemma updated_loop m : forall acc W others w,
  widgets w = W ++ map snd m ++ others ->
  NoDup (keys acc ++ keys m) ->
  for_each (combine (keys m) (seq (List.length W) (List.length m)))
    (fun updated ke => t <- text (snd ke) ;; ret (dict_set updated (fst ke) t))
    acc w
  = (w, Val (acc ++ m)).
Proof.
  induction m as [|[k v] m IH]; intros acc W others w Hw Hnd.
  - simpl. unfold ret. now rewrite app_nil_r.
  - assert (Hnew : ~ In k (keys acc)).
    { intros Hin. apply NoDup_remove_2 in Hnd. apply Hnd. apply in_or_app. now left. }
    cbn [keys map fst List.length seq combine for_each].
    unfold bind at 1. unfold bind at 1. unfold text at 1. unfold ret at 1.
    cbn [fst snd]. unfold lookup_text. rewrite Hw. cbn [map snd app].
    rewrite nth_middle. rewrite dict_set_new by assumption.
    specialize (IH (acc ++ [(k, v)]) (W ++ [v]) others w).
    rewrite length_app in IH. cbn [List.length] in IH. rewrite Nat.add_1_r in IH.
    fold (keys m). rewrite IH.
    + now rewrite <- app_assoc.
    + rewrite Hw. cbn [map snd app]. now rewrite <- app_assoc.
    + unfold keys in *. rewrite map_app. cbn [map fst] in *. rewrite <- app_assoc.
      exact Hnd.
Qed.

(** The rows of the window: one [QLabel] per item, registered under its
    key and added to the layout. *)
Lemma rows_loop items : forall w,
  NoDup (keys (key_labels (window w)) ++ keys items) ->
  for_each items
    (fun _ kv =>
       label <- new_widget (label_text (fst kv) (snd kv)) ;;
       add_key_label (fst kv) label)
    tt w
  = ({| fs := fs w; dicts := dicts w;
        widgets := widgets w ++ map row items;
        window :=
          {| fn_keys := fn_keys (window w);
             key_labels :=
               key_labels (window w)
               ++ combine (keys items) (seq (List.length (widgets w)) (List.length items));
             layout := layout (window w) ++ seq (List.length (widgets w)) (List.length items)
          |} |}, Val tt).
Proof.
  induction items as [|[k v] items IH]; intros w Hnd.
  - simpl. unfold ret. rewrite !app_nil_r. destruct w as [f ds ws [r kl lay]]. reflexivity.
  - assert (Hnew : ~ In k (keys (key_labels (window w)))).
    { intros Hin. apply NoDup_remove_2 in Hnd. apply Hnd. apply in_or_app. now left. }
    cbn [for_each]. unfold bind at 1. unfold bind at 1. unfold new_widget at 1.
    unfold add_key_label at 1. unfold bind at 1, get_window at 1, set_window at 1.
    cbn [fst snd fs dicts widgets window].
    rewrite IH.
    + cbn [fs dicts widgets window fn_keys key_labels layout].
      rewrite dict_set_new by assumption.
      rewrite length_app. cbn [List.length map keys combine seq row fst snd].
      rewrite Nat.add_1_r. rewrite <- !app_assoc. reflexivity.
    + cbn [window key_labels]. rewrite dict_set_new by assumption.
      unfold keys in *. rewrite map_app. cbn [map fst] in *. rewrite <- app_assoc.
      exact Hnd.
Qed.

(** [update_key_labels] rewrites each label from the current map. *)
Lemma labels_loop ks : forall r W old others w,
  widgets w = W ++ old ++ others ->
  List.length old = List.length ks ->
  for_each (combine ks (seq (List.length W) (List.length ks)))
    (fun _ kl =>
       current <- read_dict r ;;
       let desc := dict_get_default current (fst kl) [] in
       setText (snd kl) (label_text (fst kl) desc))
    tt w
  = (with_widgets w
       (W ++ map (fun k => label_text k (dict_get_default (lookup_dict w r) k [])) ks
          ++ others), Val tt).
Proof.
  induction ks as [|k ks IH]; intros r W old others w Hw Hlen.
  - destruct old; [|discriminate]. simpl. unfold ret. simpl in Hw. rewrite <- Hw.
    now rewrite with_widgets_same.
  - destruct old as [|o old]; [discriminate|]. injection Hlen as Hlen.
    cbn [List.length seq combine for_each].
    unfold bind at 1. unfold bind at 1. unfold read_dict at 1. unfold setText at 1.
    cbn [fst snd].
    set (x := label_text k (dict_get_default (lookup_dict w r) k [])).
    set (w1 := {| fs := fs w; dicts := dicts w; widgets := list_update (widgets w) (List.length W) x;
                  window := window w |}).
    assert (Hw1 : widgets w1 = (W ++ [x]) ++ old ++ others).
    { subst w1. cbn [widgets]. rewrite Hw. cbn [app]. rewrite list_update_middle.
      now rewrite <- app_assoc. }
    specialize (IH r (W ++ [x]) old others w1 Hw1 Hlen).
    rewrite length_app in IH. cbn [List.length] in IH. rewrite Nat.add_1_r in IH.
    rewrite IH. unfold with_widgets. subst w1. cbn [fs dicts widgets window map].
    unfold lookup_dict. cbn [dicts]. now rewrite <- app_assoc.
Qed.

(** *** The dialog *)

Lemma lookup_dict_new w d : nth (List.length (dicts w)) (dicts w ++ [d]) [] = d.
Proof. apply nth_middle. Qed.

(** An allocation leaves the dictionaries that exist as they are. *)
Lemma lookup_dict_old ds more r :
  r < List.length ds -> nth r (ds ++ more) ([] : KeyDescriptionMap) = nth r ds [].
Proof. intros H. now apply app_nth1. Qed.

Lemma SettingsDialog_init_spec w r :
  dict_ok (lookup_dict w r) ->
  SettingsDialog_init r w
  = ({| fs := fs w; dicts := dicts w ++ [lookup_dict w r];
        widgets := widgets w ++ map snd (lookup_dict w r); window := window w |},
     Val {| sd_fn_keys := List.length (dicts w);
            sd_edits := combine (keys (lookup_dict w r))
                          (seq (List.length (widgets w)) (List.length (lookup_dict w r))) |}).
Proof.
  intros Hok. unfold SettingsDialog_init.
  unfold bind at 1. unfold read_dict at 1.
  unfold bind at 1. unfold new_dict at 1.
  unfold bind at 1. unfold read_dict at 1.
  unfold lookup_dict at 1. cbn [dicts]. rewrite lookup_dict_new.
  unfold bind. rewrite edits_loop by exact Hok.
  reflexivity.
Qed.

Lemma exec_spec dlg user w :
  exec_ dlg user w
  = (with_widgets w (type_edits (sd_edits dlg) (typed user) (widgets w)), Val (choice user)).
Proof. unfold exec_, bind. now rewrite typing_loop. Qed.

Lemma get_updated_keys_spec m W others dlg w :
  sd_edits dlg = combine (keys m) (seq (List.length W) (List.length m)) ->
  widgets w = W ++ map snd m ++ others ->
  dict_ok m ->
  get_updated_keys dlg w = (with_dicts w (dicts w ++ [m]), Val (List.length (dicts w))).
Proof.
  intros He Hw Hok. unfold get_updated_keys. unfold bind at 1. rewrite He.
  rewrite (updated_loop m [] W others w Hw Hok). reflexivity.
Qed.

Lemma apply_edits_ok typed m : dict_ok m -> dict_ok (apply_edits typed m).
Proof. unfold dict_ok. now rewrite apply_edits_keys. Qed.

Lemma keys_length {V} (d : dict V) : List.length (keys d) = List.length d.
Proof. unfold keys. apply length_map. Qed.

Lemma apply_edits_length typed m : List.length (apply_edits typed m) = List.length m.
Proof. now rewrite <- !keys_length, apply_edits_keys. Qed.

(** The dialog from its construction to [get_updated_keys]: the three
    steps return, the last one with a new dictionary that holds the
    caller's items as the user has edited them. *)
Lemma dialog_run w r user :
  dict_ok (lookup_dict w r) ->
  exists dlg w1,
    SettingsDialog_init r w = (w1, Val dlg) /\
    sd_fn_keys dlg = List.length (dicts w) /\
    lookup_dict w1 (sd_fn_keys dlg) = lookup_dict w r /\
    dicts w1 = dicts w ++ [lookup_dict w r] /\
    window w1 = window w /\ fs w1 = fs w /\
    exec_ dlg user w1 = (after_typing w r user, Val (choice user)) /\
    get_updated_keys dlg (after_typing w r user)
    = (with_dicts (after_typing w r user)
         (dicts w ++ [lookup_dict w r; apply_edits (typed user) (lookup_dict w r)]),
       Val (S (List.length (dicts w)))).
Proof.
  intros Hok. set (d := lookup_dict w r) in *.
  eexists. eexists. split; [apply SettingsDialog_init_spec; exact Hok|].
  fold d. cbn [sd_fn_keys sd_edits dicts widgets window fs].
  split; [reflexivity|]. split; [apply lookup_dict_new|].
  split; [reflexivity|]. split; [reflexivity|]. split; [reflexivity|]. split.
  - rewrite exec_spec. unfold with_widgets, after_typing. cbn [sd_edits fs dicts widgets window].
    fold d. now rewrite type_edits_fields.
  - erewrite (@get_updated_keys_spec (apply_edits (typed user) d) (widgets w) []).
    + unfold with_dicts, after_typing. cbn [fs dicts widgets window]. fold d.
      rewrite <- app_assoc. cbn [app]. rewrite length_app. cbn [List.length].
      now rewrite Nat.add_1_r.
    + cbn [sd_edits]. now rewrite apply_edits_keys, apply_edits_length.
    + unfold after_typing. cbn [widgets]. fold d. now rewrite app_nil_r.
    + now apply apply_edits_ok.
Qed.

(** *** The window *)

Lemma rows_of_keys m :
  dict_ok m -> map (fun k => label_text k (dict_get_default m k [])) (keys m) = map row m.
Proof.
  intros Hok. unfold keys. rewrite map_map. apply map_ext_in.
  intros [k v] Hin. unfold dict_get_default, row. cbn [fst snd].
  now rewrite (@dict_get_item _ m k v Hok Hin).
Qed.

Lemma FnKeyWindow_init_rows_spec f loaded :
  dict_ok loaded ->
  FnKeyWindow_init_rows loaded (boot f)
  = ({| fs := f; dicts := [loaded]; widgets := map row loaded ++ [close_text];
        window := {| fn_keys := 0;
                     key_labels := combine (keys loaded) (seq 0 (List.length loaded));
                     layout := seq 0 (S (List.length loaded)) |} |}, Val tt).
Proof.
  intros Hok. unfold FnKeyWindow_init_rows, boot.
  unfold bind at 1. unfold new_dict at 1. cbn [fs dicts widgets window List.length app].
  unfold bind at 1. unfold set_window at 1. cbn [fs dicts widgets window].
  unfold bind at 1. unfold read_dict at 1. unfold lookup_dict at 1. cbn [dicts nth].
  unfold bind at 1. rewrite rows_loop by exact Hok.
  cbn [fs dicts widgets window fn_keys key_labels layout app List.length].
  unfold bind at 1. unfold new_widget at 1. cbn [fs dicts widgets window].
  unfold layout_addWidget, bind, get_window, set_window.
  cbn [fs dicts widgets window fn_keys key_labels layout].
  rewrite length_map, seq_S. reflexivity.
Qed.

Lemma rendered_rows w n rows others :
  layout (window w) = seq 0 (S n) -> List.length rows = n ->
  widgets w = rows ++ close_text :: others ->
  rendered w = rows ++ [close_text].
Proof.
  intros Hl Hn Hw. unfold rendered, lookup_text. rewrite Hl, Hw.
  replace (rows ++ close_text :: others) with ((rows ++ [close_text]) ++ others)
    by (now rewrite <- app_assoc).
  replace (S n) with (List.length (rows ++ [close_text]))
    by (rewrite length_app; simpl; lia).
  apply map_nth_seq.
Qed.

(** What the window shows in the state [Showing]. *)
Lemma showing_rendered ks w :
  showing ks w -> rendered w = map row (current_map w) ++ [close_text].
Proof.
  intros (_ & _ & Hk & _ & Hl & others & Hw).
  apply (@rendered_rows w (List.length ks) _ others); try assumption.
  now rewrite length_map, <- Hk, keys_length.
Qed.

Lemma nth_second_new {A} (l : list A) (a b dflt : A) :
  nth (S (List.length l)) (l ++ [a; b]) dflt = b.
Proof.
  rewrite app_nth2 by lia.
  replace (S (List.length l) - List.length l) with 1 by lia. reflexivity.
Qed.

Lemma show_settings_rejected w user :
  dict_ok (current_map w) -> choice user = Rejected ->
  show_settings user w = (after_typing w (fn_keys (window w)) user, Val tt).
Proof.
  intros Hok Hc.
  destruct (dialog_run w (fn_keys (window w)) user Hok)
    as (dlg & w1 & Hinit & _ & _ & _ & _ & _ & Hexec & _).
  unfold show_settings. unfold bind at 1. unfold get_window at 1.
  unfold bind at 1. rewrite Hinit. unfold bind at 1. rewrite Hexec, Hc. reflexivity.
Qed.

Lemma show_settings_accepted w user :
  dict_ok (current_map w) -> choice user = Accepted ->
  show_settings user w
  = (save_fn_keys (apply_edits (typed user) (current_map w)) ;; update_key_labels)%py
      (accepted_state w user).
Proof.
  intros Hok Hc.
  destruct (dialog_run w (fn_keys (window w)) user Hok)
    as (dlg & w1 & Hinit & _ & _ & _ & _ & _ & Hexec & Hupd).
  unfold show_settings. unfold bind at 1. unfold get_window at 1.
  unfold bind at 1. rewrite Hinit. unfold bind at 1. rewrite Hexec, Hc.
  unfold bind at 1. rewrite Hupd.
  unfold bind at 1. unfold set_fn_keys at 1. unfold bind at 1.
  unfold get_window at 1, set_window at 1.
  unfold with_dicts, after_typing. cbn [fs dicts widgets window fn_keys key_labels layout].
  unfold bind at 1. unfold read_dict at 1. unfold lookup_dict at 1. cbn [dicts].
  rewrite nth_second_new. reflexivity.
Qed.

Lemma update_key_labels_spec w ks old others :
  key_labels (window w) = combine ks (seq 0 (List.length ks)) ->
  widgets w = old ++ others -> List.length old = List.length ks ->
  update_key_labels w
  = (with_widgets w
       (map (fun k => label_text k (dict_get_default (current_map w) k [])) ks ++ others),
     Val tt).
Proof.
  intros Hkl Hw Hlen. unfold update_key_labels. unfold bind at 1. unfold get_window at 1.
  rewrite Hkl.
  apply (labels_loop ks (fn_keys (window w)) [] old others w Hw Hlen).
Qed.

(** One click on the settings button, from the state [Showing]: when it
    returns, the window is in that state again; a cancelled dialog has
    changed neither the window nor the file system; an accepted one has
    made the edited map the current one and has stored it. *)
Lemma show_settings_showing ks w user w' :
  showing ks w -> show_settings user w = (w', Val tt) ->
  showing ks w' /\
  match choice user with
  | Rejected => window w' = window w /\ fs w' = fs w /\ current_map w' = current_map w
  | Accepted =>
      current_map w' = apply_edits (typed user) (current_map w) /\
      fs w' = DirAvailable (Content (json_dumps (current_map w'))) NoFault
  end.
Proof.
  intros (Hr & Hok & Hk & Hkl & Hl & others & Hw) Hrun.
  destruct (choice user) eqn:Hc.
  - (* Accepted *)
    rewrite (show_settings_accepted w user Hok Hc) in Hrun.
    set (m := apply_edits (typed user) (current_map w)) in *.
    assert (Hm : dict_ok m) by now apply apply_edits_ok.
    assert (Hmk : keys m = ks) by (subst m; now rewrite apply_edits_keys).
    unfold bind in Hrun.
    pose proof (save_fn_keys_cases m (accepted_state w user)) as Hsave.
    destruct (fs (accepted_state w user)) as [|f0 [| |n0]];
      rewrite Hsave in Hrun; try discriminate.
    set (w4 := with_fs (accepted_state w user) _) in *.
    assert (Hcur4 : current_map w4 = m).
    { unfold current_map, lookup_dict. subst w4. unfold with_fs, accepted_state.
      cbn [dicts window fn_keys]. apply nth_second_new. }
    rewrite (@update_key_labels_spec w4 ks (map row (current_map w))
               (close_text :: others ++ map snd m)) in Hrun.
    + injection Hrun as <-.
      assert (Hcur' : current_map
                (with_widgets w4
                   (map (fun k => label_text k (dict_get_default (current_map w4) k [])) ks
                    ++ close_text :: others ++ map snd m)) = m) by exact Hcur4.
      split; [|split; [exact Hcur'|]].
      * unfold showing. rewrite Hcur'.
        split; [subst w4; unfold with_fs, accepted_state; cbn; rewrite length_app; simpl; lia|].
        split; [exact Hm|]. split; [exact Hmk|].
        split; [exact Hkl|]. split; [exact Hl|].
        exists (others ++ map snd m). cbn [widgets with_widgets].
        rewrite Hcur4, <- Hmk. now rewrite rows_of_keys.
      * rewrite Hcur'. reflexivity.
    + exact Hkl.
    + subst w4. unfold with_fs, accepted_state. cbn [widgets]. rewrite Hw.
      rewrite <- app_assoc. reflexivity.
    + now rewrite length_map, <- Hk, keys_length.
  - (* Rejected *)
    rewrite (show_settings_rejected w user Hok Hc) in Hrun. injection Hrun as <-.
    assert (Hcur : current_map (after_typing w (fn_keys (window w)) user) = current_map w).
    { unfold current_map, lookup_dict, after_typing. cbn [dicts window].
      now apply lookup_dict_old. }
    split; [|now repeat split].
    unfold showing. rewrite Hcur.
    split; [unfold after_typing; cbn; rewrite length_app; simpl; lia|].
    split; [exact Hok|]. split; [exact Hk|]. split; [exact Hkl|]. split; [exact Hl|].
    eexists. unfold after_typing. cbn [widgets]. rewrite Hw. rewrite <- app_assoc.
    reflexivity.
Qed.

(** Any number of dialogs keeps the window in the state [Showing]. *)
Lemma sessions_showing users : forall ks w w',
  showing ks w -> sessions users w = (w', Val tt) -> showing ks w'.
Proof.
  unfold sessions.
  induction users as [|user users IH]; intros ks w w' Hs Hrun.
  - injection Hrun as <-. exact Hs.
  - cbn [for_each] in Hrun. unfold bind at 1 in Hrun.
    destruct (show_settings user w) as [w1 [[]|e]] eqn:E; [|discriminate].
    destruct (show_settings_showing user Hs E) as [Hs1 _].
    exact (IH ks w1 w' Hs1 Hrun).
Qed.

Lemma sessions_keys users : forall ks w w',
  showing ks w -> sessions users w = (w', Val tt) -> keys (current_map w') = ks.
Proof.
  intros ks w w' Hs Hrun.
  now destruct (sessions_showing users Hs Hrun) as (_ & _ & Hk & _).
Qed.

(** The window after [__init__], when [load_fn_keys] has returned the
    map of strings [loaded]. *)
Lemma startup_spec f w :
  startup f = Some w ->
  exists file wf loaded,
    f = DirAvailable file wf /\
    as_key_map (loaded_value file) = Some loaded /\
    dict_ok loaded /\
    w = {| fs := f; dicts := [loaded]; widgets := map row loaded ++ [close_text];
           window := {| fn_keys := 0;
                        key_labels := combine (keys loaded) (seq 0 (List.length loaded));
                        layout := seq 0 (S (List.length loaded)) |} |}.
Proof.
  unfold startup. intros H. destruct f as [|file wf].
  - rewrite load_fn_keys_unavailable in H by reflexivity. discriminate.
  - rewrite (@load_fn_keys_available (boot (DirAvailable file wf)) file wf) in H
      by reflexivity.
    destruct (as_key_map (loaded_value file)) as [loaded|] eqn:E; [|discriminate].
    pose proof (loaded_map_ok file E) as Hok.
    rewrite (FnKeyWindow_init_rows_spec _ Hok) in H. injection H as <-.
    exists file, wf, loaded. repeat split; assumption.
Qed.

Lemma startup_showing f w :
  startup f = Some w ->
  exists v loaded,
    load_fn_keys (boot f) = (boot f, Val v) /\ as_key_map v = Some loaded /\
    current_map w = loaded /\ fs w = f /\ showing (keys loaded) w.
Proof.
  intros H. destruct (startup_spec f H) as (file & wf & loaded & -> & Hv & Hok & ->).
  exists (loaded_value file), loaded.
  split; [now apply (@load_fn_keys_available _ file wf)|]. split; [exact Hv|].
  split; [reflexivity|]. split; [reflexivity|].
  unfold showing, current_map, lookup_dict. cbn [window fn_keys dicts nth widgets key_labels
                                                   layout List.length].
  rewrite keys_length.
  repeat split; try assumption; try reflexivity; try lia.
  now exists [].
Qed.

End GuiFacts.

(* ===================================================================== *)
(** ** Facts on the text of a widget                                      *)
(* ===================================================================== *)

Module QtFacts.
Import GuiFacts.
Import Qt(qt_text, utf16_length, maxLength, descriptions_plain, field_text, held, QLineEdit).

Lemma not_high_no_pair c s :
  is_high_surrogate c = false -> has_surrogate_pair (c :: s) = has_surrogate_pair s.
Proof.
  intros H. destruct s as [|c' s]; [reflexivity|].
  cbn [has_surrogate_pair]. now rewrite H.
Qed.

Lemma qt_text_cons c c' rest :
  qt_text (c :: c' :: rest)
  = if is_high_surrogate c && is_low_surrogate c'
    then join_surrogates c c' :: qt_text rest
    else c :: qt_text (c' :: rest).
Proof. reflexivity. Qed.

(** A string without a high surrogate followed by a low one comes back
    from a widget as it was given. *)
Lemma qt_text_plain s : has_surrogate_pair s = false -> qt_text s = s.
Proof.
  induction s as [|c s IH]; [reflexivity|].
  destruct s as [|c' rest]; [reflexivity|].
  intros H. cbn [has_surrogate_pair] in H. apply orb_false_iff in H as [Hpair Hrest].
  rewrite qt_text_cons, Hpair. f_equal. now apply IH.
Qed.

Lemma pair_free_app a b :
  has_surrogate_pair a = false -> has_surrogate_pair b = false ->
  match b with c :: _ => is_low_surrogate c = false | [] => True end ->
  has_surrogate_pair (a ++ b) = false.
Proof.
  intros Ha Hb Hhead. induction a as [|x a IH]; [exact Hb|].
  destruct a as [|y a].
  - cbn [app]. destruct b as [|c b]; [reflexivity|].
    cbn [has_surrogate_pair]. rewrite Hhead, andb_false_r. exact Hb.
  - cbn [has_surrogate_pair] in Ha. apply orb_false_iff in Ha as [Hxy Ha].
    cbn [app has_surrogate_pair]. rewrite Hxy. cbn [orb]. now apply IH.
Qed.

(** The text of a row holds no surrogate pair when the key and the
    description hold none. *)
Lemma label_text_plain k desc :
  has_surrogate_pair k = false -> has_surrogate_pair desc = false ->
  has_surrogate_pair (label_text k desc) = false.
Proof.
  intros Hk Hd.
  assert (Htail : forall tail,
            has_surrogate_pair tail = false ->
            has_surrogate_pair (str "<b>" ++ k ++ str ":</b> " ++ tail) = false).
  { intros tail Ht.
    change (str "<b>" ++ k ++ str ":</b> " ++ tail)
      with (60 :: 98 :: 62 :: k ++ 58 :: 60 :: 47 :: 98 :: 62 :: 32 :: tail)%N.
    rewrite !not_high_no_pair by reflexivity.
    apply pair_free_app; [exact Hk| |reflexivity].
    now rewrite !not_high_no_pair by reflexivity. }
  unfold label_text. destruct desc as [|c desc]; apply Htail; [reflexivity|exact Hd].
Qed.

(** Loops whose bodies agree on the elements met agree. *)
Lemma for_each_ext {A B} (f g : B -> A -> M B) (l : list A) :
  (forall b x w, In x l -> f b x w = g b x w) ->
  forall b w, for_each l f b w = for_each l g b w.
Proof.
  induction l as [|x l IH]; intros H b w; [reflexivity|].
  cbn [for_each]. unfold bind. rewrite (H b x w) by now left.
  destruct (g b x w) as [w' [b'|e]]; [|reflexivity].
  apply IH. intros b0 x0 w0 Hin. apply H. now right.
Qed.

(** The steps of [SettingsDialog.__init__] around the loop over the
    items, whatever creates the fields. *)
Lemma init_steps (body : dict nat -> pystr * pystr -> M (dict nat)) w r :
  (d <- read_dict r ;;
   copy <- new_dict d ;;
   items <- read_dict copy ;;
   edits <- for_each items body [] ;;
   ret {| sd_fn_keys := copy; sd_edits := edits |})%py w
  = match for_each (lookup_dict w r) body [] (with_dicts w (dicts w ++ [lookup_dict w r])) with
    | (w', Val edits) => (w', Val {| sd_fn_keys := List.length (dicts w); sd_edits := edits |})
    | (w', Raise e) => (w', Raise e)
    end.
Proof.
  unfold bind, read_dict, new_dict, ret, with_dicts.
  unfold lookup_dict at 1. cbn [dicts]. now rewrite lookup_dict_new.
Qed.

(** On descriptions that come back as given, the dialog is built as in
    [Gui]. *)
Lemma SettingsDialog_init_plain w r :
  descriptions_plain (lookup_dict w r) ->
  Qt.SettingsDialog_init r w = SettingsDialog_init r w.
Proof.
  intros Hplain. unfold Qt.SettingsDialog_init, SettingsDialog_init.
  rewrite !init_steps.
  assert (Hloop : forall w0,
            for_each (lookup_dict w r)
              (fun edits kv => edit <- QLineEdit (snd kv) ;; ret (dict_set edits (fst kv) edit))%py
              [] w0
            = for_each (lookup_dict w r)
                (fun edits kv => edit <- new_widget (snd kv) ;; ret (dict_set edits (fst kv) edit))%py
                [] w0).
  { intros w0. apply for_each_ext. intros b kv w1 Hin. unfold QLineEdit.
    unfold descriptions_plain in Hplain. rewrite Forall_forall in Hplain.
    now rewrite (@qt_text_plain (snd kv) (Hplain kv Hin)). }
  now rewrite Hloop.
Qed.

(** On texts a field returns as given, the user's typing is that of
    [Gui]. *)
Lemma exec_plain dlg user w :
  Forall (fun kt => field_text (snd kt)) (typed user) ->
  Qt.exec_ dlg user w = exec_ dlg user w.
Proof.
  intros Hplain.
  assert (Hloop : for_each (typed user) (fun _ kt => Qt.type_into dlg kt) tt w
                  = for_each (typed user) (fun _ kt => type_into dlg kt) tt w).
  { apply for_each_ext. intros [] kt w0 Hin. unfold Qt.type_into, type_into.
    rewrite Forall_forall in Hplain. destruct (Hplain kt Hin) as [Hpair _].
    now rewrite (@qt_text_plain (snd kt) Hpair). }
  unfold Qt.exec_, exec_, bind. now rewrite Hloop.
Qed.

End QtFacts.

(* ===================================================================== *)
(** ** Properties of the specification                                    *)
(* ===================================================================== *)

Import JsonFacts StoreFacts GuiFacts QtFacts.
Import Qt(qt_text, utf16_length, maxLength, descriptions_plain, field_text, held).

Unset Implicit Arguments.

(** Concrete maps are checked item by item. *)
Ltac concrete_map :=
  repeat match goal with
         | |- map_ok _ => split
         | |- dict_ok _ => unfold dict_ok; cbn [keys map fst]
         | |- no_surrogate_pairs _ => unfold no_surrogate_pairs
         | |- NoDup [] => constructor
         | |- NoDup (_ :: _) => constructor; [cbn; intuition discriminate|]
         | |- Forall _ [] => constructor
         | |- Forall _ (_ :: _) => constructor
         | |- Forall _ (str ?s) =>
             let l := eval vm_compute in (str s) in change (str s) with l
         | |- entry_ok _ => split; cbn [fst snd]; unfold str_ok
         | |- pair_free _ => split; reflexivity
         | |- code_point _ => reflexivity
         end.

Lemma reachable_showing w : reachable w -> exists ks, showing ks w.
Proof.
  intros (f & users & w0 & Hstart & Hrun).
  destruct (startup_showing f Hstart) as (v & loaded & _ & _ & _ & _ & Hs).
  exists (keys loaded). exact (sessions_showing users Hs Hrun).
Qed.

(** *** Configuration store *)




(** C2, as amended.  When the configuration directory exists or can be
    created and holds no configuration file, [load_fn_keys] returns the
    hardcoded map: twelve entries, the keys F1 to F12. *)
Theorem load_without_file_gives_defaults (w : world) (wf : write_fault) :
  fs w = DirAvailable Absent wf ->
  load_fn_keys w = (w, Val (dict_value default_keys)) /\
  keys default_keys
  = map str ["F1"; "F2"; "F3"; "F4"; "F5"; "F6"; "F7"; "F8"; "F9"; "F10"; "F11"; "F12"]%string /\
  List.length default_keys = 12.
Proof.
  intros H. split; [|split; reflexivity].
  now rewrite (load_fn_keys_available w H).
Qed.

Lemma load_without_file_gives_defaults_witness :
  let w := boot (DirAvailable Absent NoFault) in
  fs w = DirAvailable Absent NoFault /\
  load_fn_keys w = (w, Val (dict_value default_keys)) /\
  keys default_keys
  = map str ["F1"; "F2"; "F3"; "F4"; "F5"; "F6"; "F7"; "F8"; "F9"; "F10"; "F11"; "F12"]%string /\
  List.length default_keys = 12.
Proof.
  intros w. split; [reflexivity|].
  exact (load_without_file_gives_defaults w NoFault eq_refl).
Defined.

(** C2, as stated, fails when the configuration directory can neither
    be found nor be created: no configuration file exists then, and
    [load_fn_keys] returns no map, since the [os.makedirs] of
    [get_config_path] raises before the file is looked for; no window is
    built. *)
Lemma load_without_file_or_directory_raises :
  let w := boot DirUnavailable in
  os_path_exists fn_key_helper_json w = (w, Val false) /\
  load_fn_keys w = (w, Raise OSError) /\
  snd (load_fn_keys w) <> Val (dict_value default_keys) /\
  startup DirUnavailable = None.
Proof.
  intros w. split; [reflexivity|]. split; [reflexivity|]. split; [discriminate|reflexivity].
Qed.

(** C3, at the failing input.  A configuration file that holds the JSON
    text of an array parses, so that [load_fn_keys] returns the list
    and not the default map; the window cannot be built from it. *)
Theorem load_returns_non_object_as_is :
  let f := DirAvailable (Content (str "[]")) NoFault in
  load_fn_keys (boot f) = (boot f, Val (PyList [])) /\
  PyList [] <> dict_value default_keys /\
  as_key_map (PyList []) = None /\
  startup f = None.
Proof.
  intros f. split; [reflexivity|]. split; [discriminate|]. split; reflexivity.
Qed.

(** The part of C3 the code does: a file that cannot be read, or whose
    text is not JSON, gives the default map. *)
Lemma load_unparsable_gives_defaults (w : world) (file : file_state) (wf : write_fault) :
  fs w = DirAvailable file wf ->
  match file with Content text => json_loads text = None | _ => True end ->
  load_fn_keys w = (w, Val (dict_value default_keys)).
Proof.
  intros H Hbad. rewrite (load_fn_keys_available w H).
  destruct file as [| | |text]; try reflexivity. cbn [loaded_value]. now rewrite Hbad.
Qed.

(** A file cut short after the first item is not JSON. *)
Example load_truncated_file_gives_defaults :
  let text := firstn 16 (json_dumps [(str "F1", str "Dim"); (str "F2", str "Bright")]) in
  let w := boot (DirAvailable (Content text) NoFault) in
  json_loads text = None /\ load_fn_keys w = (w, Val (dict_value default_keys)).
Proof.
  intros text w. assert (H : json_loads text = None) by (vm_compute; reflexivity).
  split; [exact H|].
  exact (load_unparsable_gives_defaults w (Content text) NoFault eq_refl H).
Qed.

(** C8.  [save_fn_keys] handles no error: when the directory cannot be
    made, when the file cannot be opened or when the write fails, the
    exception is the outcome of [save_fn_keys], and of [show_settings]
    when it saves an accepted dialog; a write that fails midway leaves
    the part written.  When [save_fn_keys] returns, the file holds the
    serialization of the map, whatever it held before. *)
Theorem save_errors_propagate (d : KeyDescriptionMap) (w : world) :
  match fs w with
  | DirAvailable _ NoFault =>
      save_fn_keys d w = (with_fs w (DirAvailable (Content (json_dumps d)) NoFault), Val tt)
  | DirAvailable _ (WriteCut n) =>
      save_fn_keys d w
      = (with_fs w (DirAvailable (Content (firstn n (json_dumps d))) (WriteCut n)),
         Raise OSError)
  | DirAvailable _ OpenDenied | DirUnavailable =>
      save_fn_keys d w = (w, Raise OSError)
  end /\
  (forall e w', get_config_path w = (w', Raise e) -> save_fn_keys d w = (w', Raise e)) /\
  (forall p w1 e w', get_config_path w = (w1, Val p) ->
                     write_text p (json_dumps d) w1 = (w', Raise e) ->
                     save_fn_keys d w = (w', Raise e)) /\
  (forall user, reachable w -> choice user = Accepted ->
                (forall prior, fs w <> DirAvailable prior NoFault) ->
                snd (show_settings user w) = Raise OSError).
Proof.
  split; [apply save_fn_keys_cases|].
  split; [|split].
  - intros e w' H. unfold save_fn_keys, bind. now rewrite H.
  - intros p w1 e w' H1 H2. unfold save_fn_keys, bind. now rewrite H1.
  - intros user Hreach Hc Hfault.
    destruct (reachable_showing w Hreach) as (ks & _ & Hok & _).
    rewrite (show_settings_accepted w user Hok Hc). unfold bind.
    pose proof (save_fn_keys_cases (apply_edits (typed user) (current_map w))
                  (accepted_state w user)) as Hsave.
    change (fs (accepted_state w user)) with (fs w) in Hsave.
    destruct (fs w) as [|prior [| |n]]; try (now rewrite Hsave).
    now elim (Hfault prior).
Qed.

(** An accepted edit while the disk is full: ten characters are
    written, and the error comes out of [show_settings]. *)
Lemma save_errors_propagate_witness :
  let w := started (DirAvailable Absent (WriteCut 10)) in
  let user := {| typed := [(str "F3", str "Mission Control")]; choice := Accepted |} in
  reachable w /\ choice user = Accepted /\
  (forall prior, fs w <> DirAvailable prior NoFault) /\
  save_fn_keys default_keys w
  = (with_fs w (DirAvailable (Content (firstn 10 (json_dumps default_keys))) (WriteCut 10)),
     Raise OSError) /\
  snd (show_settings user w) = Raise OSError.
Proof.
  intros w user.
  assert (H1 : reachable w).
  { exists (DirAvailable Absent (WriteCut 10)), [], w. split; vm_compute; reflexivity. }
  assert (Hfs : fs w = DirAvailable Absent (WriteCut 10)) by (vm_compute; reflexivity).
  assert (H2 : forall prior, fs w <> DirAvailable prior NoFault)
    by (intros prior; rewrite Hfs; discriminate).
  destruct (save_errors_propagate default_keys w) as (Hsave & _ & _ & Hshow).
  rewrite Hfs in Hsave.
  split; [exact H1|]. split; [reflexivity|]. split; [exact H2|].
  split; [exact Hsave|]. exact (Hshow user H1 eq_refl H2).
Defined.

(** C10, as amended.  When the configuration directory exists or can
    be created, [load_fn_keys] returns a value whatever is at the place
    of the file (nothing, a file that cannot be opened, bytes that are
    not text, any text), and leaves the file as it is; the value is the
    default map whenever the file cannot be read or its text is not
    JSON. *)
Theorem load_returns_when_dir_available (w : world) (file : file_state) (wf : write_fault) :
  fs w = DirAvailable file wf ->
  exists v,
    load_fn_keys w = (w, Val v) /\
    (match file with Content text => json_loads text = None | _ => True end ->
     v = dict_value default_keys).
Proof.
  intros H. exists (loaded_value file). split; [exact (load_fn_keys_available w H)|].
  destruct file as [| | |text]; try reflexivity. cbn [loaded_value]. now intros ->.
Qed.

Lemma load_returns_when_dir_available_witness :
  let w := boot (DirAvailable Undecodable OpenDenied) in
  fs w = DirAvailable Undecodable OpenDenied /\
  exists v,
    load_fn_keys w = (w, Val v) /\ (True -> v = dict_value default_keys).
Proof.
  intros w. split; [reflexivity|].
  exact (load_returns_when_dir_available w Undecodable OpenDenied eq_refl).
Defined.

(** C10, as stated, fails when the configuration directory can neither
    be found nor be created: [os.makedirs], called by
    [get_config_path] outside the [try], raises, and so does
    [load_fn_keys]. *)
Lemma load_raises_without_config_dir :
  load_fn_keys (boot DirUnavailable) = (boot DirUnavailable, Raise OSError).
Proof. reflexivity. Qed.

(** *** Edit dialog *)

(** C5, as amended.  On a dictionary of the caller whose descriptions
    hold no high surrogate immediately followed by a low surrogate, the
    dialog returns at every step from its construction to
    [get_updated_keys], and the dictionary it returns is a new object
    with the caller's keys, in their order; a key the user has not typed
    into keeps the caller's description; when the user has typed into
    one field only, that key has the text typed and every other key is
    as before. *)
Theorem dialog_returns_edited_copy (w : world) (r : nat) (user : interaction) :
  r < List.length (dicts w) -> dict_ok (lookup_dict w r) ->
  descriptions_plain (lookup_dict w r) ->
  Forall (fun kt => field_text (snd kt)) (typed user) ->
  exists dlg w1 w2 w3 r',
    Qt.SettingsDialog_init r w = (w1, Val dlg) /\
    Qt.exec_ dlg user w1 = (w2, Val (choice user)) /\
    get_updated_keys dlg w2 = (w3, Val r') /\
    r' <> r /\ List.length (dicts w) <= r' /\
    keys (lookup_dict w3 r') = keys (lookup_dict w r) /\
    (forall k, ~ In k (map fst (typed user)) ->
               dict_get (lookup_dict w3 r') k = dict_get (lookup_dict w r) k) /\
    (forall k t, typed user = [(k, t)] -> In k (keys (lookup_dict w r)) ->
                 dict_get (lookup_dict w3 r') k = Some t /\
                 forall k', k' <> k ->
                            dict_get (lookup_dict w3 r') k' = dict_get (lookup_dict w r) k').
Proof.
  intros Hr Hok Hplain Htyped.
  destruct (dialog_run w r user Hok)
    as (dlg & w1 & Hinit & _ & _ & _ & _ & _ & Hexec & Hupd).
  exists dlg, w1. do 3 eexists.
  split; [now rewrite SettingsDialog_init_plain|].
  split; [rewrite exec_plain by exact Htyped; exact Hexec|]. split; [exact Hupd|].
  assert (Hnew : lookup_dict
                   (with_dicts (after_typing w r user)
                      (dicts w ++ [lookup_dict w r; apply_edits (typed user) (lookup_dict w r)]))
                   (S (List.length (dicts w)))
                 = apply_edits (typed user) (lookup_dict w r)).
  { unfold lookup_dict at 1. unfold with_dicts. cbn [dicts]. apply nth_second_new. }
  rewrite Hnew.
  split; [lia|]. split; [lia|]. split; [apply apply_edits_keys|].
  split; [intros k Hk; now apply apply_edits_untouched|].
  intros k t Ht Hin. rewrite Ht. split; [now apply apply_edits_single|].
  intros k' Hne. apply apply_edits_untouched. cbn [map fst]. intros [->|[]]. now apply Hne.
Qed.

Lemma dialog_returns_edited_copy_witness :
  let w := started (DirAvailable Absent NoFault) in
  let user := {| typed := [(str "F3", str "Mission Control")]; choice := Accepted |} in
  0 < List.length (dicts w) /\ dict_ok (lookup_dict w 0) /\
  descriptions_plain (lookup_dict w 0) /\
  Forall (fun kt => field_text (snd kt)) (typed user) /\
  exists dlg w1 w2 w3 r',
    Qt.SettingsDialog_init 0 w = (w1, Val dlg) /\
    Qt.exec_ dlg user w1 = (w2, Val (choice user)) /\
    get_updated_keys dlg w2 = (w3, Val r') /\
    r' <> 0 /\ List.length (dicts w) <= r' /\
    keys (lookup_dict w3 r') = keys (lookup_dict w 0) /\
    (forall k, ~ In k (map fst (typed user)) ->
               dict_get (lookup_dict w3 r') k = dict_get (lookup_dict w 0) k) /\
    (forall k t, typed user = [(k, t)] -> In k (keys (lookup_dict w 0)) ->
                 dict_get (lookup_dict w3 r') k = Some t /\
                 forall k', k' <> k ->
                            dict_get (lookup_dict w3 r') k' = dict_get (lookup_dict w 0) k').
Proof.
  intros w user.
  assert (H1 : 0 < List.length (dicts w)) by (vm_compute; lia).
  assert (H2 : dict_ok (lookup_dict w 0)) by exact default_keys_ok.
  assert (H3 : descriptions_plain (lookup_dict w 0)).
  { change (lookup_dict w 0) with default_keys. unfold descriptions_plain, default_keys.
    repeat (constructor; [reflexivity|]). constructor. }
  assert (H4 : Forall (fun kt => field_text (snd kt)) (typed user)).
  { constructor; [|constructor]. split; [reflexivity|vm_compute; discriminate]. }
  split; [exact H1|]. split; [exact H2|]. split; [exact H3|]. split; [exact H4|].
  exact (dialog_returns_edited_copy w 0 user H1 H2 H3 H4).
Defined.

(** C5, as stated, fails on a description made of a high surrogate
    followed by a low surrogate: the field built on it holds the two as
    one character and returns the one code point [U+1F600], so that
    after an edit of F2 alone the dictionary returned differs from the
    caller's at F1 too. *)
Lemma dialog_joins_surrogate_pair :
  let d := [(str "F1", [0xD83D; 0xDE00]%N); (str "F2", str "Bright")] in
  let w := with_dicts (boot (DirAvailable Absent NoFault)) [d] in
  let user := {| typed := [(str "F2", str "Brighter")]; choice := Accepted |} in
  dict_ok (lookup_dict w 0) /\
  exists dlg w1 w2 w3 r',
    Qt.SettingsDialog_init 0 w = (w1, Val dlg) /\
    Qt.exec_ dlg user w1 = (w2, Val Accepted) /\
    get_updated_keys dlg w2 = (w3, Val r') /\
    lookup_dict w3 0 = d /\
    lookup_dict w3 r' = [(str "F1", [0x1F600]%N); (str "F2", str "Brighter")] /\
    dict_get (lookup_dict w3 r') (str "F1") <> dict_get (lookup_dict w 0) (str "F1").
Proof.
  intros d w user.
  split; [change (lookup_dict w 0) with d; subst d; now concrete_map|].
  do 5 eexists. split; [vm_compute; reflexivity|].
  split; [vm_compute; reflexivity|]. split; [vm_compute; reflexivity|].
  split; [reflexivity|]. split; [reflexivity|]. vm_compute. discriminate.
Qed.

(** C9.  Building the dialog on a dictionary of the caller, typing into
    its fields and calling [get_updated_keys] leave that dictionary as
    it was: the dialog holds a copy, another object with the same
    items, and none of the three steps touches the attributes of the
    window. *)
Theorem dialog_leaves_callers_map (w : world) (r : nat) (user : interaction) :
  r < List.length (dicts w) -> dict_ok (lookup_dict w r) ->
  exists dlg w1 w2 w3 r',
    SettingsDialog_init r w = (w1, Val dlg) /\
    exec_ dlg user w1 = (w2, Val (choice user)) /\
    get_updated_keys dlg w2 = (w3, Val r') /\
    sd_fn_keys dlg <> r /\
    lookup_dict w1 (sd_fn_keys dlg) = lookup_dict w r /\
    lookup_dict w1 r = lookup_dict w r /\
    lookup_dict w2 r = lookup_dict w r /\
    lookup_dict w3 r = lookup_dict w r /\
    window w1 = window w /\ window w2 = window w /\ window w3 = window w.
Proof.
  intros Hr Hok.
  destruct (dialog_run w r user Hok)
    as (dlg & w1 & Hinit & Hcopy & Hsame & Hd1 & Hwin1 & _ & Hexec & Hupd).
  exists dlg, w1. do 3 eexists.
  split; [exact Hinit|]. split; [exact Hexec|]. split; [exact Hupd|].
  split; [lia|]. split; [exact Hsame|].
  split; [unfold lookup_dict; rewrite Hd1; now apply lookup_dict_old|].
  split; [unfold lookup_dict, after_typing; cbn [dicts]; now apply lookup_dict_old|].
  split; [unfold lookup_dict, with_dicts; cbn [dicts]; now apply lookup_dict_old|].
  split; [exact Hwin1|]. split; reflexivity.
Qed.

Lemma dialog_leaves_callers_map_witness :
  let w := started (DirAvailable Absent NoFault) in
  let user := {| typed := [(str "F3", str "Mission Control"); (str "F4", [])];
                 choice := Accepted |} in
  0 < List.length (dicts w) /\ dict_ok (lookup_dict w 0) /\
  exists dlg w1 w2 w3 r',
    SettingsDialog_init 0 w = (w1, Val dlg) /\
    exec_ dlg user w1 = (w2, Val (choice user)) /\
    get_updated_keys dlg w2 = (w3, Val r') /\
    sd_fn_keys dlg <> 0 /\
    lookup_dict w1 (sd_fn_keys dlg) = lookup_dict w 0 /\
    lookup_dict w1 0 = lookup_dict w 0 /\
    lookup_dict w2 0 = lookup_dict w 0 /\
    lookup_dict w3 0 = lookup_dict w 0 /\
    window w1 = window w /\ window w2 = window w /\ window w3 = window w.
Proof.
  intros w user.
  assert (H1 : 0 < List.length (dicts w)) by (vm_compute; lia).
  assert (H2 : dict_ok (lookup_dict w 0)) by exact default_keys_ok.
  split; [exact H1|]. split; [exact H2|].
  exact (dialog_leaves_callers_map w 0 user H1 H2).
Defined.

(** *** Display surface *)

(** C4.  In a run of the program, a dialog that is opened and
    cancelled, whatever was typed into it, returns and leaves the
    attributes of the window, the map the window holds, the rows shown
    and the file system as they were; [load_fn_keys] afterwards gives
    what it gave before. *)
Theorem cancel_changes_nothing (w : world) (texts : list (pystr * pystr)) :
  reachable w ->
  exists w',
    show_settings {| typed := texts; choice := Rejected |} w = (w', Val tt) /\
    window w' = window w /\ current_map w' = current_map w /\
    rendered w' = rendered w /\ fs w' = fs w /\
    snd (load_fn_keys w') = snd (load_fn_keys w).
Proof.
  intros Hreach. destruct (reachable_showing w Hreach) as (ks & Hs).
  pose proof Hs as (_ & Hok & _).
  set (user := {| typed := texts; choice := Rejected |}).
  pose proof (show_settings_rejected w user Hok eq_refl) as Hrun.
  eexists. split; [exact Hrun|].
  destruct (@show_settings_showing ks w user _ Hs Hrun) as (Hs' & Hwin & Hfs & Hcur).
  split; [exact Hwin|]. split; [exact Hcur|].
  split; [now rewrite (showing_rendered Hs'), (showing_rendered Hs), Hcur|].
  split; [exact Hfs|].
  destruct (fs w) as [|file wf] eqn:E.
  - now rewrite !load_fn_keys_unavailable by congruence.
  - rewrite (@load_fn_keys_available _ file wf) by congruence.
    now rewrite (@load_fn_keys_available w file wf) by congruence.
Qed.

Lemma cancel_changes_nothing_witness :
  let w := started (DirAvailable Absent NoFault) in
  let texts := [(str "F1", str "typed, then cancelled")] in
  reachable w /\
  exists w',
    show_settings {| typed := texts; choice := Rejected |} w = (w', Val tt) /\
    window w' = window w /\ current_map w' = current_map w /\
    rendered w' = rendered w /\ fs w' = fs w /\
    snd (load_fn_keys w') = snd (load_fn_keys w).
Proof.
  intros w texts.
  assert (H : reachable w).
  { exists (DirAvailable Absent NoFault), [], w. split; vm_compute; reflexivity. }
  split; [exact H|]. exact (cancel_changes_nothing w texts H).
Defined.

(** C6.  In every state of a run, at the first rendering and after any
    accepted edits, the rows shown are those of the items of the current
    map, in their order, followed by the closing hint; the row of a key
    with a description is [<b>key:</b> description], the row of a key
    whose description is the empty string is [<b>key:</b> (No function)]. *)
Theorem rows_show_description_or_placeholder (w : world) :
  reachable w ->
  rendered w = map row (current_map w) ++ [close_text] /\
  (forall k desc, In (k, desc) (current_map w) -> desc <> [] ->
                  In (str "<b>" ++ k ++ str ":</b> " ++ desc) (rendered w)) /\
  (forall k, In (k, []) (current_map w) ->
             In (str "<b>" ++ k ++ str ":</b> (No function)") (rendered w)).
Proof.
  intros Hreach. destruct (reachable_showing w Hreach) as (ks & Hs).
  pose proof (showing_rendered Hs) as Hrows. split; [exact Hrows|].
  split.
  - intros k desc Hin Hne. rewrite Hrows. apply in_or_app. left.
    apply (in_map row) in Hin. unfold row at 1 in Hin. cbn [fst snd] in Hin.
    destruct desc as [|c desc]; [now elim Hne|]. exact Hin.
  - intros k Hin. rewrite Hrows. apply in_or_app. left.
    apply (in_map row) in Hin. exact Hin.
Qed.

(** After an accepted edit that empties the description of F3. *)
Lemma rows_show_description_or_placeholder_witness :
  let w0 := started (DirAvailable Absent NoFault) in
  let w := fst (sessions [{| typed := [(str "F3", [])]; choice := Accepted |}] w0) in
  reachable w /\
  rendered w = map row (current_map w) ++ [close_text] /\
  (forall k desc, In (k, desc) (current_map w) -> desc <> [] ->
                  In (str "<b>" ++ k ++ str ":</b> " ++ desc) (rendered w)) /\
  (forall k, In (k, []) (current_map w) ->
             In (str "<b>" ++ k ++ str ":</b> (No function)") (rendered w)).
Proof.
  intros w0 w.
  assert (H : reachable w).
  { exists (DirAvailable Absent NoFault),
      [{| typed := [(str "F3", [])]; choice := Accepted |}], w0.
    split; vm_compute; reflexivity. }
  split; [exact H|]. exact (rows_show_description_or_placeholder w H).
Defined.

(** C7, as amended.  The rows are shown in the order of the keys of the
    map [load_fn_keys] returned when the window was built, and accepted
    edits keep that order: the order of the default map, F1 to F12, when
    the defaults were used, and the order in which the file lists the
    keys when the file was written by [save_fn_keys]. *)
Theorem rows_follow_loaded_order (f : fsys) (users : list interaction) (w0 w : world) :
  startup f = Some w0 -> sessions users w0 = (w, Val tt) ->
  exists v loaded,
    load_fn_keys (boot f) = (boot f, Val v) /\ as_key_map v = Some loaded /\
    keys (current_map w) = keys loaded /\
    rendered w
    = map (fun k => label_text k (dict_get_default (current_map w) k [])) (keys loaded)
      ++ [close_text] /\
    (forall d wf, map_ok d -> no_surrogate_pairs d ->
                  f = DirAvailable (Content (json_dumps d)) wf -> keys loaded = keys d).
Proof.
  intros Hstart Hrun.
  destruct (startup_showing f Hstart) as (v & loaded & Hload & Hv & _ & _ & Hs).
  pose proof (sessions_showing users Hs Hrun) as Hs'.
  pose proof Hs' as (_ & Hok & Hk & _).
  exists v, loaded. split; [exact Hload|]. split; [exact Hv|]. split; [exact Hk|].
  split.
  - rewrite (showing_rendered Hs'), <- Hk. now rewrite rows_of_keys.
  - intros d wf Hd Hfree ->.
    rewrite (@load_fn_keys_available _ (Content (json_dumps d)) wf) in Hload by reflexivity.
    cbn [loaded_value] in Hload. rewrite (json_loads_dumps Hd Hfree) in Hload.
    injection Hload as <-. rewrite as_key_map_dict_value in Hv. now injection Hv as <-.
Qed.

Lemma rows_follow_loaded_order_witness :
  let stored := [(str "F2", str "Bright"); (str "F1", str "Dim")] in
  let f := DirAvailable (Content (json_dumps stored)) NoFault in
  let users := [{| typed := [(str "F1", str "Dimmer")]; choice := Accepted |}] in
  let w0 := started f in
  let w := fst (sessions users w0) in
  startup f = Some w0 /\ sessions users w0 = (w, Val tt) /\
  exists v loaded,
    load_fn_keys (boot f) = (boot f, Val v) /\ as_key_map v = Some loaded /\
    keys (current_map w) = keys loaded /\
    rendered w
    = map (fun k => label_text k (dict_get_default (current_map w) k [])) (keys loaded)
      ++ [close_text] /\
    (forall d wf, map_ok d -> no_surrogate_pairs d ->
                  f = DirAvailable (Content (json_dumps d)) wf -> keys loaded = keys d).
Proof.
  intros stored f users w0 w.
  assert (H1 : startup f = Some w0) by (vm_compute; reflexivity).
  assert (H2 : sessions users w0 = (w, Val tt)) by (vm_compute; reflexivity).
  split; [exact H1|]. split; [exact H2|].
  exact (rows_follow_loaded_order f users w0 w H1 H2).
Defined.

(** C7, as stated, fails: a file that lists F2 before F1 is shown with
    F2 above F1, while the same map stored with F1 first is shown with
    F1 above F2.  The order of the rows is the order of the file, not a
    fixed order of the keys. *)
Lemma rows_follow_stored_order :
  let stored := [(str "F2", str "Bright"); (str "F1", str "Dim")] in
  let sorted := [(str "F1", str "Dim"); (str "F2", str "Bright")] in
  let w := started (DirAvailable (Content (json_dumps stored)) NoFault) in
  let w' := started (DirAvailable (Content (json_dumps sorted)) NoFault) in
  dict_eq stored sorted /\
  startup (DirAvailable (Content (json_dumps stored)) NoFault) = Some w /\
  startup (DirAvailable (Content (json_dumps sorted)) NoFault) = Some w' /\
  rendered w = [str "<b>F2:</b> Bright"; str "<b>F1:</b> Dim"; close_text] /\
  rendered w' = [str "<b>F1:</b> Dim"; str "<b>F2:</b> Bright"; close_text] /\
  rendered w <> rendered w'.
Proof.
  intros stored sorted w w'.
  split.
  { intros k. subst stored sorted. cbn [dict_get].
    destruct (str_eqb (str "F2") k) eqn:E2, (str_eqb (str "F1") k) eqn:E1; try reflexivity.
    apply str_eqb_eq in E1, E2. subst k. discriminate. }
  split; [vm_compute; reflexivity|]. split; [vm_compute; reflexivity|].
  split; [vm_compute; reflexivity|]. split; [vm_compute; reflexivity|].
  vm_compute. discriminate.
Qed.

(* ===================================================================== *)
(** ** Further properties: the file written                               *)
(* ===================================================================== *)

Module FileFacts.
Local Open Scope N_scope.

Lemma hex_digit_printable x : x < 16 -> printable (hex_digit x).
Proof.
  intros H.
  assert (E : x = 0 \/ x = 1 \/ x = 2 \/ x = 3 \/ x = 4 \/ x = 5 \/ x = 6 \/ x = 7 \/
              x = 8 \/ x = 9 \/ x = 10 \/ x = 11 \/ x = 12 \/ x = 13 \/ x = 14 \/ x = 15)
    by lia.
  repeat (destruct E as [-> | E]; [vm_compute; intuition discriminate|]).
  subst. vm_compute. intuition discriminate.
Qed.

Ltac closed_printable := vm_compute; intuition discriminate.

Lemma nibble_printable x : printable (hex_digit (N.land x 15)).
Proof. apply hex_digit_printable. rewrite land_15. apply N.mod_lt. discriminate. Qed.

Ltac printable_list :=
  repeat (apply Forall_cons; [first [apply nibble_printable | closed_printable]|]);
  apply Forall_nil.

Ltac file_char_list :=
  repeat (apply Forall_cons; [first [now left | right; closed_printable]|]);
  apply Forall_nil.

Lemma u_escape_printable n : Forall printable (u_escape n).
Proof. unfold u_escape, hex4. printable_list. Qed.

(** Whatever the character, its replacement is printable ASCII. *)
Lemma escape_char_printable c : Forall printable (escape_char c).
Proof.
  unfold escape_char.
  destruct (c =? BACKSLASH); [printable_list|].
  destruct (c =? QUOTE); [printable_list|].
  destruct ((SPACE <=? c) && (c <=? 126)) eqn:E.
  { apply andb_true_iff in E as [E1 E2]. apply N.leb_le in E1, E2.
    apply Forall_cons; [split; assumption|apply Forall_nil]. }
  repeat match goal with
         | |- context [c =? ?n] =>
             destruct (c =? n); [printable_list|]
         end.
  destruct (c <? 0x10000); [apply u_escape_printable|].
  apply Forall_app. split; apply u_escape_printable.
Qed.

Lemma encode_basestring_ascii_printable s : Forall printable (encode_basestring_ascii s).
Proof.
  unfold encode_basestring_ascii, escape_body.
  apply Forall_cons; [closed_printable|].
  apply Forall_app. split; [|printable_list].
  apply Forall_flat_map. apply Forall_forall. intros c _. apply escape_char_printable.
Qed.

Lemma encode_item_printable kv : Forall printable (encode_item kv).
Proof.
  unfold encode_item, key_separator.
  apply Forall_app. split; [apply encode_basestring_ascii_printable|].
  apply Forall_app. split; [|apply encode_basestring_ascii_printable].
  printable_list.
Qed.

Lemma printable_file_char l : Forall printable l -> Forall file_char l.
Proof. apply Forall_impl. intros c H. now right. Qed.

Lemma iterencode_items_file_chars first ds : Forall file_char (iterencode_items first ds).
Proof.
  revert first. induction ds as [|kv ds IH]; intros first; cbn [iterencode_items];
    [constructor|].
  apply Forall_app. split; [|apply Forall_app; split; [|apply IH]].
  - destruct first; [constructor|].
    unfold item_separator, newline_indent. file_char_list.
  - apply printable_file_char, encode_item_printable.
Qed.

Lemma json_dumps_file_chars d : Forall file_char (json_dumps d).
Proof.
  unfold json_dumps. destruct d as [|kv ds].
  - file_char_list.
  - unfold newline_indent. cbn [app].
    apply Forall_cons; [right; closed_printable|].
    apply Forall_cons; [now left|].
    do 2 (apply Forall_cons; [right; closed_printable|]).
    apply Forall_app. split; [apply iterencode_items_file_chars|]. file_char_list.
Qed.

Lemma printable_no_newline l : Forall printable l -> count_occ N.eq_dec l NEWLINE = 0%nat.
Proof.
  induction 1 as [|c l Hc _ IH]; [reflexivity|].
  rewrite count_occ_cons_neq; [exact IH|].
  unfold printable, NEWLINE in *. lia.
Qed.

Lemma iterencode_items_newlines first ds :
  count_occ N.eq_dec (iterencode_items first ds) NEWLINE
  = match ds with
    | [] => 0%nat
    | _ :: rest => if first then List.length rest else S (List.length rest)
    end.
Proof.
  revert first. induction ds as [|kv ds IH]; intros first; cbn [iterencode_items];
    [reflexivity|].
  rewrite !count_occ_app, (printable_no_newline _ (encode_item_printable kv)), (IH false).
  destruct first, ds; reflexivity.
Qed.

(** An empty map is written on one line; otherwise the text has a line
    for the opening brace and one line for each item, the last one
    followed by the line of the closing brace. *)
Lemma json_dumps_newlines d :
  count_occ N.eq_dec (json_dumps d) NEWLINE
  = match d with
    | [] => 0%nat
    | _ :: _ => S (List.length d)
    end.
Proof.
  unfold json_dumps. destruct d as [|kv ds]; [reflexivity|].
  unfold newline_indent. cbn [app].
  rewrite count_occ_cons_neq by discriminate.
  rewrite count_occ_cons_eq by reflexivity.
  do 2 rewrite count_occ_cons_neq by discriminate.
  rewrite count_occ_app, iterencode_items_newlines. cbn. lia.
Qed.

End FileFacts.
Import FileFacts.

(** X1.  Whatever the descriptions hold, [save_fn_keys] writes printable
    ASCII characters and line feeds only; the text has no line feed for
    the empty map, and for any other map one line per entry between the
    line of the opening brace and the line of the closing brace. *)
Theorem saved_file_is_ascii_lines (d : KeyDescriptionMap) (w w' : world) :
  save_fn_keys d w = (w', Val tt) ->
  exists text,
    fs w' = DirAvailable (Content text) NoFault /\
    Forall file_char text /\
    count_occ N.eq_dec text NEWLINE
    = match d with
      | [] => 0
      | _ :: _ => S (List.length d)
      end.
Proof.
  intros H. apply save_fn_keys_val in H. subst w'.
  exists (json_dumps d). split; [reflexivity|].
  split; [apply json_dumps_file_chars|apply json_dumps_newlines].
Qed.

Lemma saved_file_is_ascii_lines_witness :
  let d := [(str "F1", [0xE9; 10; 0x1F600]%N); (str "F2", [])] in
  let w := boot (DirAvailable Undecodable NoFault) in
  let w' := with_fs w (DirAvailable (Content (json_dumps d)) NoFault) in
  save_fn_keys d w = (w', Val tt) /\
  exists text,
    fs w' = DirAvailable (Content text) NoFault /\
    Forall file_char text /\
    count_occ N.eq_dec text NEWLINE = 3.
Proof.
  intros d w w'.
  assert (H : save_fn_keys d w = (w', Val tt)) by reflexivity.
  split; [exact H|]. exact (saved_file_is_ascii_lines d w w' H).
Defined.

(** X2.  Two maps of strings without surrogate pairs that are saved as
    the same file are the same map, keys, order and descriptions: the
    file determines the map. *)
Theorem saved_file_determines_map (d1 d2 : KeyDescriptionMap) (wa wa' wb wb' : world) :
  map_ok d1 -> no_surrogate_pairs d1 -> map_ok d2 -> no_surrogate_pairs d2 ->
  save_fn_keys d1 wa = (wa', Val tt) -> save_fn_keys d2 wb = (wb', Val tt) ->
  fs wa' = fs wb' -> d1 = d2.
Proof.
  intros H1 F1 H2 F2 Sa Sb E.
  apply save_fn_keys_val in Sa, Sb. subst wa' wb'. cbn [fs with_fs] in E.
  injection E as E.
  pose proof (json_loads_dumps H1 F1) as L1.
  pose proof (json_loads_dumps H2 F2) as L2.
  rewrite E, L2 in L1. injection L1 as L1.
  apply (f_equal strings_only) in L1. rewrite !strings_only_to_value in L1.
  now injection L1.
Qed.

Lemma saved_file_determines_map_witness :
  let d := [(str "F1", str "Dim"); (str "F2", str "Bright")] in
  let wa := boot (DirAvailable Absent NoFault) in
  let wb := boot (DirAvailable (Content (str "{}")) NoFault) in
  let after := DirAvailable (Content (json_dumps d)) NoFault in
  map_ok d /\ no_surrogate_pairs d /\ map_ok d /\ no_surrogate_pairs d /\
  save_fn_keys d wa = (with_fs wa after, Val tt) /\
  save_fn_keys d wb = (with_fs wb after, Val tt) /\
  fs (with_fs wa after) = fs (with_fs wb after) /\ d = d.
Proof.
  intros d wa wb after.
  assert (H : map_ok d) by (subst d; concrete_map).
  assert (F : no_surrogate_pairs d) by (subst d; concrete_map).
  assert (Sa : save_fn_keys d wa = (with_fs wa after, Val tt)) by reflexivity.
  assert (Sb : save_fn_keys d wb = (with_fs wb after, Val tt)) by reflexivity.
  repeat (split; [assumption || reflexivity|]).
  exact (saved_file_determines_map d d wa _ wb _ H F H F Sa Sb eq_refl).
Defined.



(* ===================================================================== *)
(** ** Further properties: the dialog                                     *)
(* ===================================================================== *)

Module DialogFacts.

Lemma form_of_new_fields (d : KeyDescriptionMap) : forall W : list pystr,
  map (fun ke : pystr * nat => (fst ke, nth (snd ke) (W ++ map snd d) []))
    (combine (keys d) (seq (List.length W) (List.length d)))
  = d.
Proof.
  induction d as [|[k v] d IH]; intros W; [reflexivity|].
  cbn [keys map fst snd List.length seq combine].
  rewrite nth_middle. f_equal.
  specialize (IH (W ++ [v])). rewrite length_app in IH. cbn [List.length] in IH.
  rewrite Nat.add_1_r, <- app_assoc in IH. exact IH.
Qed.

Lemma last_typed_snoc typed kt k :
  last_typed (typed ++ [kt]) k
  = if str_eqb (fst kt) k then Some (snd kt) else last_typed typed k.
Proof. unfold last_typed. now rewrite fold_left_app. Qed.

Lemma apply_edits_snoc typed kt m :
  apply_edits (typed ++ [kt]) m = edit_one (apply_edits typed m) kt.
Proof. unfold apply_edits. now rewrite fold_left_app. Qed.

Lemma apply_edits_app a b m : apply_edits (a ++ b) m = apply_edits b (apply_edits a m).
Proof. unfold apply_edits. now rewrite fold_left_app. Qed.

(** The description of a key after the user's typing: the last text
    typed into its field, or the description it had. *)
Lemma apply_edits_last typed : forall m k,
  dict_get (apply_edits typed m) k
  = match dict_get m k with
    | Some desc => Some (match last_typed typed k with Some t => t | None => desc end)
    | None => None
    end.
Proof.
  induction typed as [|kt typed IH] using rev_ind; intros m k.
  - cbn. now destruct (dict_get m k).
  - rewrite apply_edits_snoc, last_typed_snoc.
    destruct (str_eqb (fst kt) k) eqn:E.
    + apply str_eqb_eq in E. subst k. unfold edit_one.
      rewrite (IH m (fst kt)).
      destruct (dict_get m (fst kt)) as [desc|] eqn:Em.
      * apply dict_get_same.
      * now rewrite IH, Em.
    + rewrite edit_one_other; [apply IH|].
      intros ->. now rewrite str_eqb_refl in E.
Qed.

Lemma for_each_map {A A' B} (f : A -> A') (body : B -> A' -> M B) (l : list A) :
  forall b w, for_each (map f l) body b w = for_each l (fun b x => body b (f x)) b w.
Proof.
  induction l as [|x l IH]; intros b w; [reflexivity|].
  cbn [map for_each]. unfold bind. destruct (body b (f x) w) as [w' [b'|e]]; [|reflexivity].
  apply IH.
Qed.

Lemma keys_held (d : KeyDescriptionMap) : keys (held d) = keys d.
Proof. unfold keys, held. rewrite map_map. reflexivity. Qed.

Lemma length_held (d : list (pystr * pystr)) : List.length (held d) = List.length d.
Proof. apply length_map. Qed.

Lemma dict_get_held (d : KeyDescriptionMap) k :
  dict_get (held d) k = option_map qt_text (dict_get d k).
Proof.
  induction d as [|[k' v] d IH]; [reflexivity|].
  cbn [held map dict_get fst snd]. now destruct (str_eqb k' k).
Qed.

Lemma last_typed_held typed k :
  last_typed (held typed) k = option_map qt_text (last_typed typed k).
Proof.
  induction typed as [|kt typed IH] using rev_ind; [reflexivity|].
  unfold held. rewrite map_app. fold (held typed). cbn [map].
  rewrite !last_typed_snoc. cbn [fst snd]. now destruct (str_eqb (fst kt) k).
Qed.

Lemma held_plain (d : KeyDescriptionMap) : descriptions_plain d -> held d = d.
Proof.
  unfold descriptions_plain, held. induction d as [|[k v] d IH]; intros H; [reflexivity|].
  inversion H as [|? ? Hv Hd]; subst. cbn [map fst snd] in *.
  now rewrite (qt_text_plain v Hv), IH.
Qed.

(** The dialog with Qt's conversion is built, on a dictionary [d], as
    the dialog of [Gui] on fields created with [held d]. *)
Lemma Qt_SettingsDialog_init_spec w r :
  dict_ok (lookup_dict w r) ->
  Qt.SettingsDialog_init r w
  = ({| fs := fs w; dicts := dicts w ++ [lookup_dict w r];
        widgets := widgets w ++ map snd (held (lookup_dict w r)); window := window w |},
     Val {| sd_fn_keys := List.length (dicts w);
            sd_edits := combine (keys (lookup_dict w r))
                          (seq (List.length (widgets w)) (List.length (lookup_dict w r))) |}).
Proof.
  intros Hok. unfold Qt.SettingsDialog_init. rewrite init_steps.
  change (for_each (lookup_dict w r)
            (fun edits kv =>
               bind (Qt.QLineEdit (snd kv)) (fun edit => ret (dict_set edits (fst kv) edit))) [])
    with (for_each (lookup_dict w r)
            (fun edits kv =>
               (fun edits kv' =>
                  bind (new_widget (snd kv')) (fun edit => ret (dict_set edits (fst kv') edit)))
                 edits (fst kv, qt_text (snd kv))) []).
  rewrite <- (for_each_map (fun kv => (fst kv, qt_text (snd kv)))
                (fun edits kv' =>
                   bind (new_widget (snd kv')) (fun edit => ret (dict_set edits (fst kv') edit)))).
  fold (held (lookup_dict w r)).
  rewrite (@edits_loop (held (lookup_dict w r)) [] _)
    by (cbn [keys map app]; fold (keys (held (lookup_dict w r))); now rewrite keys_held).
  unfold with_widgets, with_dicts. cbn [fs dicts widgets window app].
  now rewrite keys_held, length_held.
Qed.

(** The user's typing with Qt's conversion is the typing of [Gui] of
    the texts as the fields hold them. *)
Lemma Qt_exec_spec dlg user w :
  Qt.exec_ dlg user w = exec_ dlg {| typed := held (typed user); choice := choice user |} w.
Proof.
  unfold Qt.exec_, exec_, bind. cbn [typed choice]. unfold held.
  rewrite (for_each_map (fun kt => (fst kt, qt_text (snd kt)))
             (fun (_ : unit) kt => type_into dlg kt)).
  reflexivity.
Qed.

Lemma dict_get_in {V} (d : dict V) k v : dict_get d k = Some v -> In (k, v) d.
Proof.
  induction d as [|[k' v'] d IH]; cbn [dict_get]; intros H; [discriminate|].
  destruct (str_eqb k' k) eqn:E.
  - apply str_eqb_eq in E. subst k'. injection H as ->. now left.
  - right. now apply IH.
Qed.

End DialogFacts.
Import DialogFacts.

(** X4.  A dialog built on a dictionary shows it as Qt holds it: read
    from top to bottom, the form has the caller's keys in their order,
    each field holding the description of its key, in which a high
    surrogate followed by a low one has become one code point; the form
    is the caller's map when no description holds such a pair.  The
    fields are widgets created for the dialog, one for each key, and the
    widgets that existed keep their texts. *)
Theorem dialog_form_shows_callers_map (w : world) (r : nat) :
  dict_ok (lookup_dict w r) ->
  exists dlg w1,
    Qt.SettingsDialog_init r w = (w1, Val dlg) /\
    form w1 dlg = held (lookup_dict w r) /\
    (descriptions_plain (lookup_dict w r) -> form w1 dlg = lookup_dict w r) /\
    map snd (sd_edits dlg)
    = seq (List.length (widgets w)) (List.length (lookup_dict w r)) /\
    (forall old, old < List.length (widgets w) -> lookup_text w1 old = lookup_text w old).
Proof.
  intros Hok. do 2 eexists. split; [apply Qt_SettingsDialog_init_spec; exact Hok|].
  unfold form, lookup_text. cbn [sd_edits widgets].
  assert (Hform : map (fun ke : pystr * nat =>
                         (fst ke, nth (snd ke)
                                    (widgets w ++ map snd (held (lookup_dict w r))) []))
                    (combine (keys (lookup_dict w r))
                       (seq (List.length (widgets w)) (List.length (lookup_dict w r))))
                  = held (lookup_dict w r)).
  { rewrite <- (keys_held (lookup_dict w r)), <- (length_held (lookup_dict w r)).
    apply form_of_new_fields. }
  split; [exact Hform|]. split; [intros Hplain; now rewrite Hform, held_plain|].
  clear Hform. split.
  - rewrite <- (keys_length (lookup_dict w r)).
    generalize (List.length (widgets w)).
    induction (keys (lookup_dict w r)) as [|k ks IH]; intros n; [reflexivity|].
    cbn. f_equal. apply IH.
  - intros old Hold. now apply app_nth1.
Qed.

Lemma dialog_form_shows_callers_map_witness :
  let d := [(str "F1", [0xD83D; 0xDE00; 0x21]%N); (str "F2", str "Bright")] in
  let w := with_dicts (started (DirAvailable Absent NoFault)) [default_keys; d] in
  dict_ok (lookup_dict w 1) /\
  exists dlg w1,
    Qt.SettingsDialog_init 1 w = (w1, Val dlg) /\
    form w1 dlg = held (lookup_dict w 1) /\
    (descriptions_plain (lookup_dict w 1) -> form w1 dlg = lookup_dict w 1) /\
    map snd (sd_edits dlg)
    = seq (List.length (widgets w)) (List.length (lookup_dict w 1)) /\
    (forall old, old < List.length (widgets w) -> lookup_text w1 old = lookup_text w old).
Proof.
  intros d w.
  assert (H : dict_ok (lookup_dict w 1)).
  { change (lookup_dict w 1) with d. subst d. now concrete_map. }
  split; [exact H|]. exact (dialog_form_shows_callers_map w 1 H).
Defined.

(** X5.  [get_updated_keys] returns the form as it stands when it is
    called: each key of the caller's dictionary with the last text typed
    into its field, or with its description when nothing was typed into
    it, as the field holds it; typing that names a key the dictionary
    does not have adds nothing.  The texts typed are texts a field
    takes, of at most [maxLength] code units. *)
Theorem updated_keys_hold_last_text (w : world) (r : nat) (user : interaction) :
  dict_ok (lookup_dict w r) ->
  Forall (fun kt => (utf16_length (snd kt) <= maxLength)%N) (typed user) ->
  exists dlg w1 w2 w3 r',
    Qt.SettingsDialog_init r w = (w1, Val dlg) /\
    Qt.exec_ dlg user w1 = (w2, Val (choice user)) /\
    get_updated_keys dlg w2 = (w3, Val r') /\
    lookup_dict w3 r' = form w2 dlg /\
    (forall k desc,
        dict_get (lookup_dict w r) k = Some desc ->
        dict_get (lookup_dict w3 r') k
        = Some (qt_text (match last_typed (typed user) k with Some t => t | None => desc end))) /\
    (forall k, dict_get (lookup_dict w r) k = None ->
               dict_get (lookup_dict w3 r') k = None).
Proof.
  intros Hok _. set (d := lookup_dict w r) in *.
  set (m := apply_edits (held (typed user)) (held d)).
  assert (Hokm : dict_ok m).
  { apply apply_edits_ok. unfold dict_ok. now rewrite keys_held. }
  assert (Hkm : keys m = keys d) by (unfold m; now rewrite apply_edits_keys, keys_held).
  assert (Hlm : List.length m = List.length d)
    by (unfold m; now rewrite apply_edits_length, length_held).
  set (w1 := {| fs := fs w; dicts := dicts w ++ [d];
                widgets := widgets w ++ map snd (held d); window := window w |}).
  set (dlg := {| sd_fn_keys := List.length (dicts w);
                 sd_edits := combine (keys d) (seq (List.length (widgets w)) (List.length d)) |}).
  set (w2 := with_widgets w1 (widgets w ++ map snd m)).
  assert (Hexec : Qt.exec_ dlg user w1 = (w2, Val (choice user))).
  { rewrite Qt_exec_spec, exec_spec. cbn [typed choice]. unfold w2. f_equal. f_equal.
    subst w1 dlg. cbn [sd_edits widgets].
    rewrite <- (keys_held d), <- (length_held d). apply type_edits_fields. }
  assert (Hupd : get_updated_keys dlg w2
                 = (with_dicts w2 (dicts w2 ++ [m]), Val (List.length (dicts w2)))).
  { apply (@get_updated_keys_spec m (widgets w) []).
    - subst dlg. cbn [sd_edits]. now rewrite Hkm, Hlm.
    - subst w2. cbn [with_widgets widgets]. now rewrite app_nil_r.
    - exact Hokm. }
  exists dlg, w1, w2. do 2 eexists.
  split; [exact (Qt_SettingsDialog_init_spec w r Hok)|].
  split; [exact Hexec|]. split; [exact Hupd|].
  assert (Hnew : lookup_dict (with_dicts w2 (dicts w2 ++ [m])) (List.length (dicts w2)) = m).
  { unfold lookup_dict, with_dicts. cbn [dicts]. apply nth_middle. }
  rewrite Hnew. split.
  - unfold form, lookup_text. subst dlg w2. cbn [sd_edits with_widgets widgets].
    rewrite <- Hkm, <- Hlm. symmetry. apply form_of_new_fields.
  - unfold m. split; intros k; [intros desc|]; intros Hk;
      rewrite apply_edits_last, dict_get_held, last_typed_held, Hk; cbn [option_map];
      [now destruct (last_typed (typed user) k)|reflexivity].
Qed.

Lemma updated_keys_hold_last_text_witness :
  let d := [(str "F1", [0xD83D; 0xDE00]%N); (str "F3", str "??")] in
  let w := with_dicts (started (DirAvailable Absent NoFault)) [default_keys; d] in
  let user := {| typed := [(str "F3", str "Expose"); (str "F13", str "none");
                           (str "F3", str "Mission Control")];
                 choice := Accepted |} in
  dict_ok (lookup_dict w 1) /\
  Forall (fun kt => (utf16_length (snd kt) <= maxLength)%N) (typed user) /\
  exists dlg w1 w2 w3 r',
    Qt.SettingsDialog_init 1 w = (w1, Val dlg) /\
    Qt.exec_ dlg user w1 = (w2, Val (choice user)) /\
    get_updated_keys dlg w2 = (w3, Val r') /\
    lookup_dict w3 r' = form w2 dlg /\
    (forall k desc,
        dict_get (lookup_dict w 1) k = Some desc ->
        dict_get (lookup_dict w3 r') k
        = Some (qt_text (match last_typed (typed user) k with Some t => t | None => desc end))) /\
    (forall k, dict_get (lookup_dict w 1) k = None ->
               dict_get (lookup_dict w3 r') k = None).
Proof.
  intros d w user.
  assert (H : dict_ok (lookup_dict w 1)).
  { change (lookup_dict w 1) with d. subst d. now concrete_map. }
  assert (Hlen : Forall (fun kt => (utf16_length (snd kt) <= maxLength)%N) (typed user)).
  { repeat (constructor; [vm_compute; discriminate|]). constructor. }
  split; [exact H|]. split; [exact Hlen|].
  exact (updated_keys_hold_last_text w 1 user H Hlen).
Defined.

(* ===================================================================== *)
(** ** Further properties: the window over a run                          *)
(* ===================================================================== *)

Module RunFacts.

Section EditedEntries.
Variables A B : pystr -> Prop.



End EditedEntries.



(** An accepted dialog from the state [Showing], when the write goes
    through. *)
Lemma show_settings_accepted_ok ks w user prior :
  showing ks w -> choice user = Accepted -> fs w = DirAvailable prior NoFault ->
  exists w', show_settings user w = (w', Val tt).
Proof.
  intros (Hr & Hok & Hk & Hkl & Hl & others & Hw) Hc Hfs.
  rewrite (show_settings_accepted w user Hok Hc). unfold bind.
  pose proof (save_fn_keys_cases (apply_edits (typed user) (current_map w))
                (accepted_state w user)) as Hsave.
  change (fs (accepted_state w user)) with (fs w) in Hsave. rewrite Hfs in Hsave.
  rewrite Hsave.
  erewrite (@update_key_labels_spec _ ks (map row (current_map w))
              (close_text :: others ++ map snd (apply_edits (typed user) (current_map w)))).
  - eexists. reflexivity.
  - exact Hkl.
  - unfold with_fs, accepted_state. cbn [widgets]. rewrite Hw, <- app_assoc. reflexivity.
  - now rewrite length_map, <- Hk, keys_length.
Qed.

(** An accepted dialog from the state [Showing], when the save raises:
    the state is the one reached before the save, with what the failed
    write has left in the file. *)
Lemma show_settings_accepted_failed ks w user :
  showing ks w -> choice user = Accepted ->
  (forall prior, fs w <> DirAvailable prior NoFault) ->
  show_settings user w
  = (with_fs (accepted_state w user)
       match fs w with
       | DirAvailable _ (WriteCut n) =>
           DirAvailable
             (Content (firstn n (json_dumps (apply_edits (typed user) (current_map w)))))
             (WriteCut n)
       | other => other
       end, Raise OSError).
Proof.
  intros (_ & Hok & _) Hc Hfault.
  rewrite (show_settings_accepted w user Hok Hc). unfold bind.
  pose proof (save_fn_keys_cases (apply_edits (typed user) (current_map w))
                (accepted_state w user)) as Hsave.
  change (fs (accepted_state w user)) with (fs w) in Hsave.
  destruct (fs w) as [|prior [| |n]] eqn:E; rewrite Hsave.
  - unfold with_fs, accepted_state. cbn [fs dicts widgets window]. now rewrite E.
  - now elim (Hfault prior).
  - unfold with_fs, accepted_state. cbn [fs dicts widgets window]. now rewrite E.
  - reflexivity.
Qed.

Lemma accepted_typing_none users :
  existsb accepted users = false -> accepted_typing users = [].
Proof.
  induction users as [|user users IH]; [reflexivity|].
  cbn [existsb accepted_typing flat_map]. intros H.
  apply orb_false_iff in H as [Hu Hrest]. rewrite Hu. now apply IH.
Qed.

(** What a run of dialogs makes of the map and of the file. *)
Lemma sessions_summary users : forall ks w0 w,
  showing ks w0 -> sessions users w0 = (w, Val tt) ->
  current_map w = apply_edits (accepted_typing users) (current_map w0) /\
  (existsb accepted users = true -> in_sync w) /\
  (existsb accepted users = false -> fs w = fs w0).
Proof.
  unfold sessions.
  induction users as [|user users IH]; intros ks w0 w Hs Hrun.
  - injection Hrun as <-. cbn [existsb].
    split; [reflexivity|]. split; [discriminate|reflexivity].
  - cbn [for_each] in Hrun. unfold bind at 1 in Hrun.
    destruct (show_settings user w0) as [w1 [[]|e]] eqn:E; [|discriminate].
    destruct (show_settings_showing user Hs E) as [Hs1 Hstep].
    destruct (IH ks w1 w Hs1 Hrun) as (Hmap & Hyes & Hno).
    cbn [accepted_typing flat_map existsb]. unfold accepted at 1 3 5.
    destruct (choice user).
    + destruct Hstep as [Hcur Hfs]. rewrite apply_edits_app, <- Hcur.
      split; [exact Hmap|]. split; [|discriminate].
      intros _. destruct (existsb accepted users) eqn:Hany; [now apply Hyes|].
      unfold in_sync. rewrite (Hno eq_refl), Hfs.
      rewrite Hmap, (accepted_typing_none users Hany). reflexivity.
    + destruct Hstep as (_ & Hfs & Hcur). cbn [app orb]. rewrite <- Hcur.
      split; [exact Hmap|]. split; [exact Hyes|].
      intros Hany. now rewrite (Hno Hany).
Qed.

(** *** [update_key_labels] on any labels *)

Lemma nth_list_update_eq {A} (l : list A) i x dflt :
  i < List.length l -> nth i (list_update l i x) dflt = x.
Proof.
  revert i. induction l as [|a l IH]; intros [|i] H; cbn in *; try lia; [reflexivity|].
  apply IH. lia.
Qed.

Lemma nth_list_update_neq {A} (l : list A) i j x dflt :
  i <> j -> nth j (list_update l i x) dflt = nth j l dflt.
Proof.
  revert i j. induction l as [|a l IH]; intros [|i] [|j] H; cbn; try reflexivity.
  - now elim H.
  - apply IH. congruence.
Qed.

Lemma relabel_length current labels : forall ws,
  List.length (relabel current labels ws) = List.length ws.
Proof.
  unfold relabel. induction labels as [|kl labels IH]; intros ws; [reflexivity|].
  cbn [fold_left]. now rewrite IH, list_update_length.
Qed.

Lemma relabel_other current labels : forall ws i,
  ~ In i (map snd labels) -> nth i (relabel current labels ws) [] = nth i ws [].
Proof.
  unfold relabel. induction labels as [|kl labels IH]; intros ws i H; [reflexivity|].
  cbn [fold_left]. rewrite IH by (intros Hin; apply H; now right).
  apply nth_list_update_neq. intros E. apply H. now left.
Qed.

Lemma relabel_label current labels : forall ws k i,
  NoDup (map snd labels) -> In (k, i) labels -> i < List.length ws ->
  nth i (relabel current labels ws) [] = label_text k (dict_get_default current k []).
Proof.
  induction labels as [|[k0 i0] labels IH]; intros ws k i Hnd Hin Hi; [now elim Hin|].
  cbn [map snd] in Hnd. inversion Hnd as [|? ? Hnew Hnd']; subst.
  change (relabel current ((k0, i0) :: labels) ws)
    with (relabel current labels
            (list_update ws i0 (label_text k0 (dict_get_default current k0 [])))).
  destruct Hin as [Heq|Hin].
  - injection Heq as -> ->. rewrite relabel_other by exact Hnew.
    now apply nth_list_update_eq.
  - apply IH; [exact Hnd'|exact Hin|now rewrite list_update_length].
Qed.

Lemma relabel_loop labels : forall r w,
  for_each labels
    (fun (_ : unit) kl =>
       bind (read_dict r)
         (fun current =>
            let desc := dict_get_default current (fst kl) [] in
            setText (snd kl) (label_text (fst kl) desc)))
    tt w
  = (with_widgets w (relabel (lookup_dict w r) labels (widgets w)), Val tt).
Proof.
  induction labels as [|kl labels IH]; intros r w.
  - cbn. unfold ret. now rewrite with_widgets_same.
  - cbn [for_each]. unfold bind at 1. unfold bind at 1. unfold read_dict at 1.
    unfold setText at 1. rewrite IH. reflexivity.
Qed.

End RunFacts.
Import RunFacts.

(** X6.  In a run of the program, when the write goes through, an
    accepted dialog returns; the window then holds the map as the user
    has edited it, the file holds the serialization of that map, the
    rows show it, and the labels and their order are the ones the window
    was built with. *)
Theorem accepted_edit_is_saved_and_shown (w : world) (user : interaction)
    (prior : file_state) :
  reachable w -> choice user = Accepted -> fs w = DirAvailable prior NoFault ->
  exists w',
    show_settings user w = (w', Val tt) /\
    current_map w' = apply_edits (typed user) (current_map w) /\
    fs w' = DirAvailable (Content (json_dumps (current_map w'))) NoFault /\
    rendered w' = map row (current_map w') ++ [close_text] /\
    key_labels (window w') = key_labels (window w) /\
    layout (window w') = layout (window w).
Proof.
  intros Hreach Hc Hfs. destruct (reachable_showing w Hreach) as (ks & Hs).
  destruct (show_settings_accepted_ok ks w user prior Hs Hc Hfs) as (w' & Hrun).
  exists w'. split; [exact Hrun|].
  destruct (@show_settings_showing ks w user w' Hs Hrun) as (Hs' & Hstep).
  rewrite Hc in Hstep. destruct Hstep as [Hcur Hfile].
  split; [exact Hcur|]. split; [exact Hfile|]. split; [exact (showing_rendered Hs')|].
  destruct Hs as (_ & _ & _ & Hkl & Hl & _), Hs' as (_ & _ & _ & Hkl' & Hl' & _).
  split; congruence.
Qed.

Lemma accepted_edit_is_saved_and_shown_witness :
  let w := started (DirAvailable (Content (str "not json")) NoFault) in
  let user := {| typed := [(str "F4", [])]; choice := Accepted |} in
  reachable w /\ choice user = Accepted /\
  fs w = DirAvailable (Content (str "not json")) NoFault /\
  exists w',
    show_settings user w = (w', Val tt) /\
    current_map w' = apply_edits (typed user) (current_map w) /\
    fs w' = DirAvailable (Content (json_dumps (current_map w'))) NoFault /\
    rendered w' = map row (current_map w') ++ [close_text] /\
    key_labels (window w') = key_labels (window w) /\
    layout (window w') = layout (window w).
Proof.
  intros w user.
  assert (H : reachable w).
  { exists (DirAvailable (Content (str "not json")) NoFault), [], w.
    split; vm_compute; reflexivity. }
  assert (Hfs : fs w = DirAvailable (Content (str "not json")) NoFault)
    by (vm_compute; reflexivity).
  split; [exact H|]. split; [reflexivity|]. split; [exact Hfs|].
  exact (accepted_edit_is_saved_and_shown w user _ H eq_refl Hfs).
Defined.

(** X7.  [show_settings] assigns the edited map to the window before it
    saves and rewrites the labels after: when the save of an accepted
    dialog raises, the window holds the edited map while its rows still
    show the descriptions of before, and the file is as it was, or cut
    short when the write failed midway. *)
Theorem failed_save_leaves_old_rows (w : world) (user : interaction) :
  reachable w -> choice user = Accepted ->
  (forall prior, fs w <> DirAvailable prior NoFault) ->
  exists w',
    show_settings user w = (w', Raise OSError) /\
    current_map w' = apply_edits (typed user) (current_map w) /\
    rendered w' = rendered w /\
    fs w' = match fs w with
            | DirAvailable _ (WriteCut n) =>
                DirAvailable (Content (firstn n (json_dumps (current_map w')))) (WriteCut n)
            | other => other
            end.
Proof.
  intros Hreach Hc Hfault. destruct (reachable_showing w Hreach) as (ks & Hs).
  eexists. split; [exact (show_settings_accepted_failed ks w user Hs Hc Hfault)|].
  assert (Hcur : current_map
                   (with_fs (accepted_state w user)
                      match fs w with
                      | DirAvailable _ (WriteCut n) =>
                          DirAvailable
                            (Content (firstn n (json_dumps
                                                  (apply_edits (typed user) (current_map w)))))
                            (WriteCut n)
                      | other => other
                      end)
                 = apply_edits (typed user) (current_map w)).
  { unfold current_map at 1, lookup_dict, with_fs, accepted_state.
    cbn [dicts window fn_keys]. apply nth_second_new. }
  split; [exact Hcur|]. split; [|rewrite Hcur; reflexivity].
  pose proof (showing_rendered Hs) as Hold.
  destruct Hs as (_ & _ & Hk & _ & Hl & others & Hw).
  rewrite Hold.
  apply (@rendered_rows _ (List.length ks) _
           (others ++ map snd (apply_edits (typed user) (current_map w)))).
  - exact Hl.
  - now rewrite length_map, <- Hk, keys_length.
  - unfold with_fs, accepted_state. cbn [widgets]. rewrite Hw, <- app_assoc. reflexivity.
Qed.

Lemma failed_save_leaves_old_rows_witness :
  let w := started (DirAvailable Absent (WriteCut 7)) in
  let user := {| typed := [(str "F1", str "Darker")]; choice := Accepted |} in
  reachable w /\ choice user = Accepted /\
  (forall prior, fs w <> DirAvailable prior NoFault) /\
  exists w',
    show_settings user w = (w', Raise OSError) /\
    current_map w' = apply_edits (typed user) (current_map w) /\
    rendered w' = rendered w /\
    fs w' = match fs w with
            | DirAvailable _ (WriteCut n) =>
                DirAvailable (Content (firstn n (json_dumps (current_map w')))) (WriteCut n)
            | other => other
            end.
Proof.
  intros w user.
  assert (H : reachable w).
  { exists (DirAvailable Absent (WriteCut 7)), [], w. split; vm_compute; reflexivity. }
  assert (Hfs : fs w = DirAvailable Absent (WriteCut 7)) by (vm_compute; reflexivity).
  assert (Hfault : forall prior, fs w <> DirAvailable prior NoFault)
    by (intros prior; rewrite Hfs; discriminate).
  split; [exact H|]. split; [reflexivity|]. split; [exact Hfault|].
  exact (failed_save_leaves_old_rows w user H eq_refl Hfault).
Defined.

(** X8.  At any point of a run the window holds the map loaded when it
    was built, with the texts typed into the accepted dialogs applied in
    the order of the dialogs: the keys and their order are those of the
    loaded map, the description of a key is the last text typed for it
    in an accepted dialog, and what was typed into cancelled dialogs
    leaves no trace. *)
Theorem run_applies_accepted_edits (f : fsys) (users : list interaction) (w0 w : world) :
  startup f = Some w0 -> sessions users w0 = (w, Val tt) ->
  current_map w = apply_edits (accepted_typing users) (current_map w0) /\
  keys (current_map w) = keys (current_map w0) /\
  forall k desc,
    dict_get (current_map w0) k = Some desc ->
    dict_get (current_map w) k
    = Some (match last_typed (accepted_typing users) k with Some t => t | None => desc end).
Proof.
  intros Hstart Hrun.
  destruct (startup_showing f Hstart) as (v & loaded & _ & _ & _ & _ & Hs).
  destruct (sessions_summary users (keys loaded) w0 w Hs Hrun) as (Hmap & _).
  split; [exact Hmap|]. split; [now rewrite Hmap, apply_edits_keys|].
  intros k desc Hk. now rewrite Hmap, apply_edits_last, Hk.
Qed.

Lemma run_applies_accepted_edits_witness :
  let f := DirAvailable Absent NoFault in
  let users := [ {| typed := [(str "F3", str "Expose")]; choice := Accepted |};
                 {| typed := [(str "F3", str "dropped")]; choice := Rejected |};
                 {| typed := [(str "F4", str "Launchpad")]; choice := Accepted |} ] in
  let w0 := started f in
  let w := fst (sessions users w0) in
  startup f = Some w0 /\ sessions users w0 = (w, Val tt) /\
  current_map w = apply_edits (accepted_typing users) (current_map w0) /\
  keys (current_map w) = keys (current_map w0) /\
  forall k desc,
    dict_get (current_map w0) k = Some desc ->
    dict_get (current_map w) k
    = Some (match last_typed (accepted_typing users) k with Some t => t | None => desc end).
Proof.
  intros f users w0 w.
  assert (H1 : startup f = Some w0) by (vm_compute; reflexivity).
  assert (H2 : sessions users w0 = (w, Val tt)) by (vm_compute; reflexivity).
  split; [exact H1|]. split; [exact H2|].
  exact (run_applies_accepted_edits f users w0 w H1 H2).
Defined.

(** X9.  The file follows the accepted dialogs: as long as every dialog
    of a run was cancelled the file system is the one the program was
    started on, and once a dialog has been accepted the file holds the
    serialization of the map the window holds. *)
Theorem file_follows_accepted_edits (f : fsys) (users : list interaction) (w0 w : world) :
  startup f = Some w0 -> sessions users w0 = (w, Val tt) ->
  if existsb accepted users
  then fs w = DirAvailable (Content (json_dumps (current_map w))) NoFault
  else fs w = f /\ current_map w = current_map w0.
Proof.
  intros Hstart Hrun.
  destruct (startup_showing f Hstart) as (v & loaded & _ & _ & _ & Hf & Hs).
  destruct (sessions_summary users (keys loaded) w0 w Hs Hrun) as (Hmap & Hyes & Hno).
  destruct (existsb accepted users) eqn:Hany.
  - exact (Hyes eq_refl).
  - split; [now rewrite (Hno eq_refl)|].
    now rewrite Hmap, (accepted_typing_none users Hany).
Qed.

Lemma file_follows_accepted_edits_witness :
  let f := DirAvailable NoAccess NoFault in
  let users := [ {| typed := [(str "F3", str "dropped")]; choice := Rejected |};
                 {| typed := [(str "F3", str "Expose")]; choice := Accepted |};
                 {| typed := [(str "F4", str "dropped")]; choice := Rejected |} ] in
  let w0 := started f in
  let w := fst (sessions users w0) in
  startup f = Some w0 /\ sessions users w0 = (w, Val tt) /\
  if existsb accepted users
  then fs w = DirAvailable (Content (json_dumps (current_map w))) NoFault
  else fs w = f /\ current_map w = current_map w0.
Proof.
  intros f users w0 w.
  assert (H1 : startup f = Some w0) by (vm_compute; reflexivity).
  assert (H2 : sessions users w0 = (w, Val tt)) by (vm_compute; reflexivity).
  split; [exact H1|]. split; [exact H2|].
  exact (file_follows_accepted_edits f users w0 w H1 H2).
Defined.

(* ===================================================================== *)
(** ** Further properties: starting again, and relabelling                *)
(* ===================================================================== *)

Module RestartFacts.

(** The window built on a file system whose file makes [load_fn_keys]
    return the map of strings [d]. *)
Lemma startup_on_loaded file wf (d : KeyDescriptionMap) :
  loaded_value file = dict_value d -> dict_ok d ->
  startup (DirAvailable file wf)
  = Some {| fs := DirAvailable file wf; dicts := [d];
            widgets := map row d ++ [close_text];
            window := {| fn_keys := 0;
                         key_labels := combine (keys d) (seq 0 (List.length d));
                         layout := seq 0 (S (List.length d)) |} |}.
Proof.
  intros Hv Hok. unfold startup.
  rewrite (@load_fn_keys_available (boot (DirAvailable file wf)) file wf) by reflexivity.
  rewrite Hv, as_key_map_dict_value.
  now rewrite (FnKeyWindow_init_rows_spec (DirAvailable file wf) Hok).
Qed.

Lemma started_rendered file wf (d : KeyDescriptionMap) w :
  loaded_value file = dict_value d -> dict_ok d ->
  startup (DirAvailable file wf) = Some w ->
  current_map w = d /\ rendered w = map row d ++ [close_text] /\
  fs w = DirAvailable file wf.
Proof.
  intros Hv Hok Hstart. rewrite (startup_on_loaded file wf d Hv Hok) in Hstart.
  injection Hstart as <-. split; [reflexivity|]. split; [|reflexivity].
  apply (@rendered_rows _ (List.length d) (map row d) []).
  - reflexivity.
  - apply length_map.
  - reflexivity.
Qed.

End RestartFacts.
Import RestartFacts.



(** X11.  A configuration file that is missing, cannot be read, does not
    decode or is no JSON text does not stop the window from being built:
    the window holds the default map and shows its twelve rows and the
    closing hint, and the file is left as it was found, neither created
    nor repaired. *)
Theorem unusable_file_shows_defaults (file : file_state) (wf : write_fault) :
  match file with Content text => json_loads text = None | _ => True end ->
  exists w,
    startup (DirAvailable file wf) = Some w /\
    current_map w = default_keys /\
    rendered w = map row default_keys ++ [close_text] /\
    List.length (rendered w) = 13 /\
    fs w = DirAvailable file wf.
Proof.
  intros Hfile.
  assert (Hv : loaded_value file = dict_value default_keys).
  { destruct file as [| | |text]; try reflexivity. cbn [loaded_value]. now rewrite Hfile. }
  eexists. split; [exact (startup_on_loaded file wf default_keys Hv default_keys_ok)|].
  destruct (started_rendered file wf default_keys _ Hv default_keys_ok
              (startup_on_loaded file wf default_keys Hv default_keys_ok))
    as (H1 & H2 & H3).
  split; [exact H1|]. split; [exact H2|]. split; [|exact H3].
  now rewrite H2.
Qed.

Lemma unusable_file_shows_defaults_witness :
  let file := Content (str "{'F1': 'Dim'}") in
  match file with Content text => json_loads text = None | _ => True end /\
  exists w,
    startup (DirAvailable file OpenDenied) = Some w /\
    current_map w = default_keys /\
    rendered w = map row default_keys ++ [close_text] /\
    List.length (rendered w) = 13 /\
    fs w = DirAvailable file OpenDenied.
Proof.
  intros file.
  assert (H : match file with Content text => json_loads text = None | _ => True end)
    by (vm_compute; reflexivity).
  split; [exact H|].
  exact (unusable_file_shows_defaults file OpenDenied H).
Defined.

(** X12.  [update_key_labels] on any window whose labels are distinct
    widgets, when no key of a label and no description of the map holds
    a high surrogate followed by a low one: it returns; every label of a
    key is then given the row of its key in the map the window holds,
    with the placeholder when the map has no such key or an empty
    description for it, a text Qt shows and returns as it is; every
    other widget, the dictionaries, the file system and the attributes
    of the window are as before: no label is added and none removed,
    also for keys the map has gained or lost. *)
Theorem update_key_labels_rewrites_each_label (w : world) :
  NoDup (map snd (key_labels (window w))) ->
  Forall (fun kl => snd kl < List.length (widgets w)) (key_labels (window w)) ->
  Forall (fun kl => has_surrogate_pair (fst kl) = false) (key_labels (window w)) ->
  descriptions_plain (current_map w) ->
  exists w',
    update_key_labels w = (w', Val tt) /\
    (forall k label, In (k, label) (key_labels (window w)) ->
       lookup_text w' label
       = match dict_get (current_map w) k with
         | Some (c :: desc) => str "<b>" ++ k ++ str ":</b> " ++ c :: desc
         | _ => str "<b>" ++ k ++ str ":</b> (No function)"
         end /\
       qt_text (lookup_text w' label) = lookup_text w' label) /\
    (forall other, ~ In other (map snd (key_labels (window w))) ->
       lookup_text w' other = lookup_text w other) /\
    List.length (widgets w') = List.length (widgets w) /\
    window w' = window w /\ dicts w' = dicts w /\ fs w' = fs w.
Proof.
  intros Hnd Hin Hkeys Hdescs.
  exists (with_widgets w (relabel (current_map w) (key_labels (window w)) (widgets w))).
  split.
  { unfold update_key_labels. unfold bind at 1. unfold get_window at 1.
    apply relabel_loop. }
  unfold lookup_text, with_widgets. cbn [widgets window dicts fs].
  split.
  { intros k label Hkl.
    assert (Hlabel : label < List.length (widgets w)).
    { rewrite Forall_forall in Hin. exact (Hin (k, label) Hkl). }
    rewrite (relabel_label (current_map w) (key_labels (window w)) (widgets w) k label
               Hnd Hkl Hlabel).
    split.
    - unfold dict_get_default, label_text.
      destruct (dict_get (current_map w) k) as [[|c desc]|]; reflexivity.
    - apply qt_text_plain, label_text_plain.
      + rewrite Forall_forall in Hkeys. exact (Hkeys (k, label) Hkl).
      + unfold dict_get_default.
        destruct (dict_get (current_map w) k) as [desc|] eqn:E; [|reflexivity].
        unfold descriptions_plain in Hdescs. rewrite Forall_forall in Hdescs.
        exact (Hdescs (k, desc) (dict_get_in (current_map w) k desc E)). }
  split; [intros other Hother; now apply relabel_other|].
  split; [apply relabel_length|]. repeat split.
Qed.

Lemma update_key_labels_rewrites_each_label_witness :
  let w := {| fs := DirUnavailable;
              dicts := [[(str "F2", str "Louder"); (str "F9", [])]];
              widgets := [str "title"; str "old F1"; str "old F2"; str "old F9"];
              window := {| fn_keys := 0;
                           key_labels := [(str "F1", 1); (str "F2", 2); (str "F9", 3)];
                           layout := [0; 1; 2; 3] |} |} in
  NoDup (map snd (key_labels (window w))) /\
  Forall (fun kl => snd kl < List.length (widgets w)) (key_labels (window w)) /\
  Forall (fun kl => has_surrogate_pair (fst kl) = false) (key_labels (window w)) /\
  descriptions_plain (current_map w) /\
  exists w',
    update_key_labels w = (w', Val tt) /\
    (forall k label, In (k, label) (key_labels (window w)) ->
       lookup_text w' label
       = match dict_get (current_map w) k with
         | Some (c :: desc) => str "<b>" ++ k ++ str ":</b> " ++ c :: desc
         | _ => str "<b>" ++ k ++ str ":</b> (No function)"
         end /\
       qt_text (lookup_text w' label) = lookup_text w' label) /\
    (forall other, ~ In other (map snd (key_labels (window w))) ->
       lookup_text w' other = lookup_text w other) /\
    List.length (widgets w') = List.length (widgets w) /\
    window w' = window w /\ dicts w' = dicts w /\ fs w' = fs w.
Proof.
  intros w.
  assert (H1 : NoDup (map snd (key_labels (window w)))).
  { cbn. repeat (constructor; [cbn; lia|]). constructor. }
  assert (H2 : Forall (fun kl => snd kl < List.length (widgets w)) (key_labels (window w))).
  { cbn. repeat (constructor; [cbn; lia|]). constructor. }
  assert (H3 : Forall (fun kl => has_surrogate_pair (fst kl) = false)
                 (key_labels (window w))).
  { cbn [w window key_labels]. repeat (constructor; [reflexivity|]). constructor. }
  assert (H4 : descriptions_plain (current_map w)).
  { unfold descriptions_plain.
    change (current_map w) with [(str "F2", str "Louder"); (str "F9", ([] : pystr))].
    repeat (constructor; [reflexivity|]). constructor. }
  split; [exact H1|]. split; [exact H2|]. split; [exact H3|]. split; [exact H4|].
  exact (update_key_labels_rewrites_each_label w H1 H2 H3 H4).
Defined.

(* ===================================================================== *)
(** ** Further properties: a write cut short                              *)
(* ===================================================================== *)

Module CutFacts.
Local Open Scope N_scope.

Lemma escape_char_escaped c t : escaped t -> escaped (escape_char c ++ t).
Proof.
  intros Ht. unfold escape_char.
  destruct (N.eqb_spec c BACKSLASH) as [->|Hbs].
  { apply escaped_simple; [discriminate|exact Ht]. }
  destruct (N.eqb_spec c QUOTE) as [->|Hq].
  { apply escaped_simple; [discriminate|exact Ht]. }
  destruct ((SPACE <=? c) && (c <=? 126)).
  { now apply escaped_literal. }
  repeat match goal with
         | |- escaped ((if ?b then _ else _) ++ _) => destruct b
         end;
    try (apply escaped_simple; [discriminate|exact Ht]).
  - now apply escaped_unicode.
  - unfold u_escape, hex4. cbn [app]. now do 2 apply escaped_unicode.
Qed.

Lemma escape_body_escaped s : escaped (escape_body s).
Proof.
  induction s as [|c s IH]; [constructor|].
  cbn [escape_body flat_map]. now apply escape_char_escaped.
Qed.

Lemma prepend_failed_or (P : pystr -> Prop) c r :
  failed_or P r -> failed_or P (prepend c r).
Proof. now destruct r as [[s rest]|]. Qed.

Lemma scanstring_short_escape l2 :
  (List.length l2 < 4)%nat -> scanstring (BACKSLASH :: LETTER_u :: l2) = None.
Proof.
  intros H. rewrite scanstring_eq. unfold scanstring_from.
  change (BACKSLASH =? QUOTE) with false. change (BACKSLASH =? BACKSLASH) with true.
  change (LETTER_u =? LETTER_u) with true. cbv iota.
  destruct l2 as [|h1 [|h2 [|h3 [|h4 l3]]]]; try reflexivity. cbn in H. lia.
Qed.

Lemma scanstring_step c l1 :
  c <> QUOTE -> c <> BACKSLASH ->
  scanstring (c :: l1) = if c <=? 0x1F then None else prepend c (scanstring l1).
Proof.
  intros Hq Hbs. rewrite scanstring_eq. unfold scanstring_from.
  apply N.eqb_neq in Hq, Hbs. now rewrite Hq, Hbs.
Qed.

Lemma scanstring_backslash e l2 :
  e <> LETTER_u ->
  scanstring (BACKSLASH :: e :: l2)
  = match simple_escape e with
    | Some c' => prepend c' (scanstring l2)
    | None => None
    end.
Proof.
  intros He. rewrite scanstring_eq. unfold scanstring_from.
  change (BACKSLASH =? QUOTE) with false. change (BACKSLASH =? BACKSLASH) with true.
  cbv iota. apply N.eqb_neq in He. now rewrite He.
Qed.

(** [scanstring] on a text cut anywhere: when the cut falls before the
    closing quote it fails, and it returns what is left before the cut
    otherwise. *)
Lemma scanstring_cut n : forall t X p q,
  (List.length t <= n)%nat -> escaped t -> p ++ q = t ++ QUOTE :: X ->
  failed_or (fun rest => rest ++ q = X) (scanstring p).
Proof.
  induction n as [|n IH]; intros t X p q Hlen Ht Hcut.
  - destruct t; [|cbn in Hlen; lia].
    destruct p as [|a p]; [exact I|]. cbn [app] in Hcut. injection Hcut as -> Hcut.
    rewrite scanstring_eq. exact Hcut.
  - destruct Ht as [|c t Hq Hbs Ht|e t He Ht|h1 h2 h3 h4 t Ht].
    + destruct p as [|a p]; [exact I|]. cbn [app] in Hcut. injection Hcut as -> Hcut.
      rewrite scanstring_eq. exact Hcut.
    + destruct p as [|a p]; [exact I|]. cbn [app] in Hcut. injection Hcut as -> Hcut.
      rewrite (scanstring_step c p Hq Hbs). destruct (c <=? 0x1F); [exact I|].
      apply prepend_failed_or. apply (IH t); [cbn in Hlen; lia|exact Ht|exact Hcut].
    + destruct p as [|a [|b p]]; [exact I| |].
      { cbn [app] in Hcut. now injection Hcut as ->. }
      cbn [app] in Hcut. injection Hcut as -> -> Hcut.
      rewrite (scanstring_backslash e p He). destruct (simple_escape e); [|exact I].
      apply prepend_failed_or. apply (IH t); [cbn in Hlen; lia|exact Ht|exact Hcut].
    + assert (Hshort : (List.length p < 6)%nat \/
                       exists p3, p = BACKSLASH :: LETTER_u :: h1 :: h2 :: h3 :: h4 :: p3 /\
                                  p3 ++ q = t ++ QUOTE :: X).
      { destruct p as [|a0 [|a1 [|a2 [|a3 [|a4 [|a5 p3]]]]]]; try (left; cbn; lia).
        right. cbn [app] in Hcut. injection Hcut as -> -> -> -> -> -> Hcut.
        now exists p3. }
      destruct Hshort as [Hshort|(p3 & -> & Hcut3)].
      { destruct p as [|a0 [|a1 l2]]; [exact I| |].
        - cbn [app] in Hcut. now injection Hcut as ->.
        - cbn [app] in Hcut. injection Hcut as -> -> _.
          rewrite scanstring_short_escape; [exact I|cbn in Hshort; lia]. }
      assert (Hrest : failed_or (fun rest => rest ++ q = X) (scanstring p3)).
      { apply (IH t); [cbn in Hlen; lia|exact Ht|exact Hcut3]. }
      rewrite scanstring_u_escape.
      destruct (hex4_value h1 h2 h3 h4) as [u|]; [|exact I].
      destruct (is_high_surrogate u); [|now apply prepend_failed_or].
      destruct p3 as [|b [|x l4]]; try now apply prepend_failed_or.
      destruct ((b =? BACKSLASH) && (x =? LETTER_u)) eqn:Hbx;
        [|now apply prepend_failed_or].
      apply andb_true_iff in Hbx as [Hb Hx]. apply N.eqb_eq in Hb, Hx. subst b x.
      destruct l4 as [|g1 [|g2 [|g3 [|g4 l5]]]]; try exact I.
      destruct (hex4_value g1 g2 g3 g4) as [u2|]; [|exact I].
      destruct (is_low_surrogate u2); [|now apply prepend_failed_or].
      apply prepend_failed_or.
      destruct Ht as [|c t Hq Hbs Ht|e t He Ht|k1 k2 k3 k4 t Ht];
        cbn [app] in Hcut3.
      * discriminate.
      * injection Hcut3 as <- _. now elim Hbs.
      * injection Hcut3 as <- _. now elim He.
      * injection Hcut3 as _ _ _ _ Hcut5.
        apply (IH t); [cbn in Hlen; lia|exact Ht|exact Hcut5].
Qed.

Lemma scan_once_quote fuel l1 :
  scan_once (S fuel) (QUOTE :: l1)
  = match scanstring l1 with
    | Some (s, rest) => Some (PyStr s, rest)
    | None => None
    end.
Proof. reflexivity. Qed.

Lemma scan_once_nil fuel : scan_once fuel [] = None.
Proof. now destruct fuel. Qed.

Lemma parse_object_items_nil fuel acc : parse_object_items fuel [] acc = None.
Proof. now destruct fuel. Qed.

Lemma parse_object_items_quote fuel l1 acc :
  parse_object_items (S fuel) (QUOTE :: l1) acc
  = match scanstring l1 with
    | None => None
    | Some (key, l2) =>
        match skip_whitespace l2 with
        | colon :: l3 =>
            if colon =? COLON then
              match scan_once fuel (skip_whitespace l3) with
              | None => None
              | Some (v, l4) =>
                  match skip_whitespace l4 with
                  | d :: l5 =>
                      if d =? RBRACE then Some (PyDict (dict_set acc key v), l5)
                      else if d =? COMMA
                      then parse_object_items fuel (skip_whitespace l5) (dict_set acc key v)
                      else None
                  | [] => None
                  end
              end
            else None
        | [] => None
        end
    end.
Proof. reflexivity. Qed.

Ltac cut_cons H :=
  match type of H with
  | (?a :: ?l) ++ ?q = _ => change ((a :: l) ++ q) with (a :: (l ++ q)) in H
  end.

(** The value of an item, cut anywhere. *)
Lemma scan_once_cut_string fuel s T p q :
  p ++ q = QUOTE :: escape_body s ++ QUOTE :: T ->
  failed_or (fun rest => rest ++ q = T) (scan_once fuel p).
Proof.
  intros Hcut. destruct fuel as [|fuel]; [exact I|].
  destruct p as [|a p]; [exact I|].
  cut_cons Hcut. injection Hcut as -> Hcut. rewrite scan_once_quote.
  pose proof (@scanstring_cut _ (escape_body s) T p q (le_n _)
                (escape_body_escaped s) Hcut) as H.
  now destruct (scanstring p) as [[v rest]|].
Qed.

(** The items and the closing brace as the encoder writes them. *)
Lemma items_shape kv ds :
  iterencode_items true (kv :: ds) ++ [NEWLINE; RBRACE]
  = QUOTE :: escape_body (fst kv) ++ QUOTE :: COLON :: SPACE ::
    QUOTE :: escape_body (snd kv) ++ QUOTE ::
    match ds with
    | [] => [NEWLINE; RBRACE]
    | kv' :: ds' =>
        COMMA :: NEWLINE :: SPACE :: SPACE ::
        (iterencode_items true (kv' :: ds') ++ [NEWLINE; RBRACE])
    end.
Proof.
  cbn [iterencode_items app]. rewrite <- app_assoc, encode_item_shape.
  rewrite encode_basestring_ascii_app.
  destruct ds as [|kv' ds']; [reflexivity|].
  cbn [iterencode_items]. unfold item_separator, newline_indent.
  cbn [app]. reflexivity.
Qed.

(** One turn of the loop of [_parse_object] on an item cut anywhere:
    the turn fails, or the item is whole and the loop goes on with what
    is left before the cut. *)
Lemma parse_item_cut kv fuel acc p q T :
  p ++ q = QUOTE :: escape_body (fst kv) ++ QUOTE :: COLON :: SPACE ::
           QUOTE :: escape_body (snd kv) ++ QUOTE :: T ->
  parse_object_items (S fuel) p acc = None \/
  exists key v l4,
    l4 ++ q = T /\
    parse_object_items (S fuel) p acc
    = match skip_whitespace l4 with
      | d :: l5 =>
          if d =? RBRACE then Some (PyDict (dict_set acc key v), l5)
          else if d =? COMMA
          then parse_object_items fuel (skip_whitespace l5) (dict_set acc key v)
          else None
      | [] => None
      end.
Proof.
  intros Hcut.
  destruct p as [|a p]; [now left|].
  cut_cons Hcut. injection Hcut as -> Hcut. rewrite parse_object_items_quote.
  pose proof (@scanstring_cut _ (escape_body (fst kv)) _ p q (le_n _)
                (escape_body_escaped (fst kv)) Hcut) as Hkey.
  destruct (scanstring p) as [[key l2]|]; [|now left].
  cbn [failed_or] in Hkey.
  destruct l2 as [|colon l3]; [now left|].
  cut_cons Hkey. injection Hkey as -> Hkey.
  change (skip_whitespace (COLON :: l3)) with (COLON :: l3). cbv iota.
  change (COLON =? COLON) with true. cbv iota.
  destruct l3 as [|sp l3]; [left; cbn [skip_whitespace]; now rewrite scan_once_nil|].
  cut_cons Hkey. injection Hkey as -> Hkey.
  change (skip_whitespace (SPACE :: l3)) with (skip_whitespace l3).
  assert (Hstart : skip_whitespace l3 = l3).
  { destruct l3 as [|qu l3]; [reflexivity|].
    cut_cons Hkey. now injection Hkey as -> _. }
  rewrite Hstart.
  pose proof (scan_once_cut_string fuel (snd kv) T l3 q Hkey) as Hval.
  destruct (scan_once fuel l3) as [[v l4]|]; [|now left].
  right. exists key, v, l4. split; [exact Hval|reflexivity].
Qed.

(** The loop of the parser on the items and the closing brace the
    encoder has written, cut before the end. *)
Lemma parse_object_items_cut ds : forall kv fuel acc p q,
  q <> [] -> p ++ q = iterencode_items true (kv :: ds) ++ [NEWLINE; RBRACE] ->
  parse_object_items fuel p acc = None.
Proof.
  induction ds as [|kv' ds IH]; intros kv fuel acc p q Hq Hcut;
    (destruct fuel as [|fuel]; [reflexivity|]);
    rewrite items_shape in Hcut;
    (destruct (parse_item_cut kv fuel acc p q _ Hcut)
      as [Hnone|(key & v & l4 & Hval & ->)]; [exact Hnone|]).
  - destruct l4 as [|a4 [|b4 l4]]; [reflexivity| |].
    + cut_cons Hval. injection Hval as -> _. reflexivity.
    + cut_cons Hval. injection Hval as _ _ Hval.
      apply app_eq_nil in Hval as [_ Hval]. now elim Hq.
  - destruct l4 as [|a4 l4]; [reflexivity|].
    cut_cons Hval. injection Hval as -> Hval.
    change (skip_whitespace (COMMA :: l4)) with (COMMA :: l4). cbv iota.
    change (COMMA =? RBRACE) with false. change (COMMA =? COMMA) with true. cbv iota.
    destruct l4 as [|a5 l4]; [apply parse_object_items_nil|].
    cut_cons Hval. injection Hval as -> Hval.
    change (skip_whitespace (NEWLINE :: l4)) with (skip_whitespace l4).
    destruct l4 as [|a6 l4]; [apply parse_object_items_nil|].
    cut_cons Hval. injection Hval as -> Hval.
    change (skip_whitespace (SPACE :: l4)) with (skip_whitespace l4).
    destruct l4 as [|a7 l4]; [apply parse_object_items_nil|].
    cut_cons Hval. injection Hval as -> Hval.
    change (skip_whitespace (SPACE :: l4)) with (skip_whitespace l4).
    assert (Hstart : skip_whitespace l4 = l4).
    { destruct l4 as [|a8 l4]; [reflexivity|].
      pose proof Hval as Hhead. cut_cons Hhead. now injection Hhead as -> _. }
    rewrite Hstart. exact (IH kv' fuel _ l4 q Hq Hval).
Qed.

(** [json.loads] rejects every text [json.dump] has not finished. *)
Lemma json_loads_cut (d : KeyDescriptionMap) p q :
  q <> [] -> p ++ q = json_dumps d -> json_loads p = None.
Proof.
  intros Hq Hcut. destruct d as [|kv ds].
  - destruct p as [|a [|b p]]; [reflexivity| |].
    + cbn in Hcut. now injection Hcut as -> _.
    + cbn in Hcut. injection Hcut as _ _ Hcut.
      apply app_eq_nil in Hcut as [_ Hcut]. now elim Hq.
  - change (p ++ q = LBRACE :: NEWLINE :: SPACE :: SPACE ::
                      (iterencode_items true (kv :: ds) ++ [NEWLINE; RBRACE])) in Hcut.
    destruct p as [|a p]; [reflexivity|].
    cut_cons Hcut. injection Hcut as -> Hcut.
    unfold json_loads. change (LBRACE =? BOM) with false. cbv iota.
    change (skip_whitespace (LBRACE :: p)) with (LBRACE :: p).
    set (fuel := (2 * List.length (LBRACE :: p))%nat). clearbody fuel.
    assert (Hobj : scan_once (S fuel) (LBRACE :: p)
                   = match skip_whitespace p with
                     | c' :: rest =>
                         if c' =? RBRACE then Some (PyDict [], rest)
                         else parse_object_items fuel (c' :: rest) []
                     | [] => None
                     end) by reflexivity.
    rewrite Hobj. clear Hobj.
    destruct p as [|a1 p]; [reflexivity|].
    cut_cons Hcut. injection Hcut as -> Hcut.
    change (skip_whitespace (NEWLINE :: p)) with (skip_whitespace p).
    destruct p as [|a2 p]; [reflexivity|].
    cut_cons Hcut. injection Hcut as -> Hcut.
    change (skip_whitespace (SPACE :: p)) with (skip_whitespace p).
    destruct p as [|a3 p]; [reflexivity|].
    cut_cons Hcut. injection Hcut as -> Hcut.
    change (skip_whitespace (SPACE :: p)) with (skip_whitespace p).
    destruct p as [|a4 p]; [reflexivity|].
    pose proof Hcut as Hitems.
    cut_cons Hcut. injection Hcut as -> _.
    change (skip_whitespace (QUOTE :: p)) with (QUOTE :: p).
    change (QUOTE =? RBRACE) with false. cbv iota.
    now rewrite (parse_object_items_cut ds kv fuel [] (QUOTE :: p) q Hq Hitems).
Qed.

End CutFacts.
Import CutFacts.

(** X13.  [save_fn_keys] writes into the configuration file itself: when
    the write stops before the text is complete, the save raises and the
    file holds a proper prefix of the text, which [json.load] rejects
    whatever the map is; [load_fn_keys] then returns the default map, and
    the window built next holds and shows the defaults: the map that was
    being saved and the one the file held before are both lost. *)
Theorem cut_write_is_read_as_defaults (d : KeyDescriptionMap) (w : world)
    (prior : file_state) (n : nat) :
  fs w = DirAvailable prior (WriteCut n) -> n < List.length (json_dumps d) ->
  exists w',
    save_fn_keys d w = (w', Raise OSError) /\
    fs w' = DirAvailable (Content (firstn n (json_dumps d))) (WriteCut n) /\
    json_loads (firstn n (json_dumps d)) = None /\
    load_fn_keys w' = (w', Val (dict_value default_keys)) /\
    exists again,
      startup (fs w') = Some again /\
      current_map again = default_keys /\
      rendered again = map row default_keys ++ [close_text].
Proof.
  intros Hfs Hn.
  pose proof (save_fn_keys_cases d w) as Hsave. rewrite Hfs in Hsave.
  assert (Hcut : json_loads (firstn n (json_dumps d)) = None).
  { apply (json_loads_cut d (firstn n (json_dumps d)) (skipn n (json_dumps d))).
    - intros Hnil. apply (f_equal (@List.length N)) in Hnil.
      rewrite length_skipn in Hnil. cbn [List.length] in Hnil. lia.
    - apply firstn_skipn. }
  eexists. split; [exact Hsave|]. split; [reflexivity|]. split; [exact Hcut|].
  assert (Hv : loaded_value (Content (firstn n (json_dumps d))) = dict_value default_keys)
    by (cbn [loaded_value]; now rewrite Hcut).
  split.
  { rewrite (@load_fn_keys_available _ (Content (firstn n (json_dumps d))) (WriteCut n))
      by reflexivity.
    now rewrite Hv. }
  cbn [with_fs fs].
  eexists. split; [exact (startup_on_loaded _ (WriteCut n) default_keys Hv default_keys_ok)|].
  destruct (started_rendered _ (WriteCut n) default_keys _ Hv default_keys_ok
              (startup_on_loaded _ (WriteCut n) default_keys Hv default_keys_ok))
    as (H1 & H2 & _).
  split; [exact H1|exact H2].
Qed.

Lemma cut_write_is_read_as_defaults_witness :
  let d := [(str "F1", str "Dim"); (str "F2", str "a } b")] in
  let w := boot (DirAvailable (Content (str "{}")) (WriteCut 31)) in
  fs w = DirAvailable (Content (str "{}")) (WriteCut 31) /\
  31 < List.length (json_dumps d) /\
  exists w',
    save_fn_keys d w = (w', Raise OSError) /\
    fs w' = DirAvailable (Content (firstn 31 (json_dumps d))) (WriteCut 31) /\
    json_loads (firstn 31 (json_dumps d)) = None /\
    load_fn_keys w' = (w', Val (dict_value default_keys)) /\
    exists again,
      startup (fs w') = Some again /\
      current_map again = default_keys /\
      rendered again = map row default_keys ++ [close_text].
Proof.
  intros d w.
  assert (Hn : 31 < List.length (json_dumps d)) by (apply Nat.ltb_lt; vm_compute; reflexivity).
  split; [reflexivity|]. split; [exact Hn|].
  exact (cut_write_is_read_as_defaults d w (Content (str "{}")) 31 eq_refl Hn).
Defined.
